(** * dodo: a DynamoDB toolkit -- shallow embedding and verification

    The development follows the layout of [packages/dodo/src]:
    - [JS]       the JavaScript values the toolkit manipulates;
    - [Platform] the built-ins [utils.ts] calls (base64, JSON);
    - [Keys]     [keys.ts]   (single / tenant / hierarchy / custom);
    - [Utils]    [utils.ts]  ([buildFilterExpression], [encrypt], [decrypt],
                 [toSnakeCase], [toCamelCase], [buildQueryExpression]);
    - [Client]   the document client the facade sends its commands to;
    - [Dodo]     [dodo.ts]   (store facade: get / put / delete / update /
                 scan);
    - [Entity]   [entity.ts] (entity CRUD on top of the facade, find /
                 findOne);
    - [Plugins]  [plugins.ts] ([softDelete], [encryption], [caseTransform],
                 [timestamps]);
    - [Spec]     reference definitions after the specification's wording;
    - [Examples] sample configurations and records.

    Definitions come first, the theorems about them afterwards. *)

From stdpp Require Import gmap strings list fin_maps pretty.
From Stdlib Require Import Ascii.

Local Open Scope string_scope.

(* ===================================================================== *)
(** ** JavaScript values *)
(* ===================================================================== *)

Module JS.

(** Numbers are modelled on their integer-valued fragment, strings as byte
    strings, objects as finite maps of their own enumerable properties
    (property order is not observable in the model). *)
#[warnings="-register-all"]
Inductive value : Type :=
| VUndef
| VNull
| VBool (b : bool)
| VNum (n : Z)
| VStr (s : string)
| VArr (l : list value)
| VObj (m : gmap string value).

(** Thrown values.  [Error] is what the toolkit itself throws; the others
    are raised by the platform or by the collaborators. *)
Inductive exn : Type :=
| Error (message : string)
| TypeError (message : string)
| SyntaxError (message : string)
| ZodError (issues : value)
| ValidationException (message : string).

(** The completion of an evaluation: a value, or a thrown exception. *)
Inductive completion (A : Type) : Type :=
| Return (a : A)
| Throw (e : exn).
Arguments Return {A} a.
Arguments Throw {A} e.

Definition cbind {A B} (c : completion A) (k : A → completion B) : completion B :=
  match c with
  | Return a => k a
  | Throw e => Throw e
  end.

Definition is_undef (v : value) : bool :=
  match v with VUndef => true | _ => false end.

(** [v === null || v === undefined], the test behind [??]. *)
Definition nullish (v : value) : bool :=
  match v with VUndef | VNull => true | _ => false end.

(** [a ?? b] *)
Definition coalesce (a b : value) : value :=
  if nullish a then b else a.

(** ToBoolean *)
Definition truthy (v : value) : bool :=
  match v with
  | VUndef | VNull => false
  | VBool b => b
  | VNum n => negb (n =? 0)%Z
  | VStr s => negb (String.eqb s "")
  | VArr _ | VObj _ => true
  end.

(** ToString, as performed by a template literal [`${v}`]. *)
Fixpoint toString (v : value) : string :=
  match v with
  | VUndef => "undefined"
  | VNull => "null"
  | VBool true => "true"
  | VBool false => "false"
  | VNum n => pretty n
  | VStr s => s
  | VArr l =>
      String.concat ","
        (map (λ x, if nullish x then "" else toString x) l)
  | VObj _ => "[object Object]"
  end.

(** The indexed properties of an array-like: ["0"], ["1"], ... *)
Definition indexed (l : list value) : gmap string value :=
  list_to_map (imap (λ i x, (pretty i, x)) l).

Fixpoint chars (s : string) : list value :=
  match s with
  | EmptyString => []
  | String c s' => VStr (String c "") :: chars s'
  end.

(** The own enumerable properties of a value: what object spread
    [{...v}] and a rest pattern copy.  Spreading a primitive other than a
    string copies nothing. *)
Definition own_props (v : value) : gmap string value :=
  match v with
  | VObj m => m
  | VArr l => indexed l
  | VStr s => indexed (chars s)
  | _ => ∅
  end.

(** [{...v1, ...v2, ..., ...vn}]: later sources win on collision. *)
Definition spread (vs : list value) : gmap string value :=
  foldl (λ acc v, own_props v ∪ acc) ∅ vs.

(** [v.k] / [v[k]] (own data properties and [length]; a property read on
    [null] or [undefined] throws). *)
Definition get_prop (v : value) (k : string) : completion value :=
  match v with
  | VUndef | VNull =>
      Throw (TypeError ("Cannot read properties of " +:+ toString v))
  | VArr l =>
      Return (if String.eqb k "length" then VNum (Z.of_nat (length l))
              else default VUndef (own_props v !! k))
  | VStr s =>
      Return (if String.eqb k "length" then VNum (Z.of_nat (String.length s))
              else default VUndef (own_props v !! k))
  | _ => Return (default VUndef (own_props v !! k))
  end.

(** [typeof v] *)
Definition typeof (v : value) : string :=
  match v with
  | VUndef => "undefined"
  | VBool _ => "boolean"
  | VNum _ => "number"
  | VStr _ => "string"
  | VNull | VArr _ | VObj _ => "object"
  end.

(** [k in v]: throws unless [v] is an object. *)
Definition has_prop (k : string) (v : value) : completion bool :=
  match v with
  | VObj m => Return (bool_decide (is_Some (m !! k)))
  | VArr l =>
      Return (bool_decide (is_Some (indexed l !! k)) || String.eqb k "length")
  | _ =>
      Throw (TypeError ("Cannot use 'in' operator to search for '" +:+ k
                        +:+ "' in " +:+ toString v))
  end.

(** [v === true] *)
Definition is_true (v : value) : bool :=
  match v with VBool true => true | _ => false end.

End JS.

Export JS.

(** A state monad with exceptions: the state survives a throw, as the
    effects performed before a JavaScript exception do. *)
Definition M (S A : Type) : Type := S → completion A * S.

Definition ret {S A} (a : A) : M S A := λ s, (Return a, s).
Definition throw {S A} (e : exn) : M S A := λ s, (Throw e, s).
Definition bind {S A B} (m : M S A) (k : A → M S B) : M S B :=
  λ s, match m s with
       | (Return a, s') => k a s'
       | (Throw e, s') => (Throw e, s')
       end.
Definition lift {S A} (c : completion A) : M S A := λ s, (c, s).

(** Both [completion] and [M S] are used through stdpp's monadic
    notation [x ← m; k]. *)
#[global] Instance completion_ret : MRet completion := @Return.
#[global] Instance completion_bind : MBind completion := λ A B k c, cbind c k.
#[global] Instance M_ret {S} : MRet (M S) := @ret S.
#[global] Instance M_bind {S} : MBind (M S) := λ A B k m, bind m k.

(* ===================================================================== *)
(** ** The platform: base64 and JSON *)
(* ===================================================================== *)

(** [encrypt] and [decrypt] are written with [Buffer] and [JSON]; this is
    the model of those built-ins.  Strings being byte strings (the UTF-8
    form of the text), [Buffer.from(s)] and [buf.toString()] are the
    identity. *)
Module Platform.

(** A character as a byte, and back. *)
Definition byte (a : ascii) : N := N_of_ascii a.
Definition char (n : N) : ascii := ascii_of_N (n mod 256).

(** *** base64 *)

(** The base64 alphabet. *)
Definition alphabet : string :=
  "ABCDEFGHIJKLMNOPQRSTUVWXYZabcdefghijklmnopqrstuvwxyz0123456789+/".

Definition base64_char (n : N) : ascii :=
  default "A"%char (String.get (N.to_nat n) alphabet).

Fixpoint index_of (c : ascii) (s : string) : option N :=
  match s with
  | EmptyString => None
  | String c' s' =>
      if Ascii.eqb c c' then Some 0%N else N.succ <$> index_of c s'
  end.

(** The value of a base64 character; the decoder also accepts the URL-safe
    [-] and [_]. *)
Definition unbase64 (c : ascii) : option N :=
  if Ascii.eqb c "-" then Some 62%N
  else if Ascii.eqb c "_" then Some 63%N
  else index_of c alphabet.


(** [buf.toString("base64")] *)
Fixpoint base64_encode (bytes : string) : string :=
  match bytes with
  | EmptyString => ""
  | String a EmptyString =>
      String (base64_char (byte a / 4))
        (String (base64_char (byte a mod 4 * 16)) "==")
  | String a (String b EmptyString) =>
      String (base64_char (byte a / 4))
        (String (base64_char (byte a mod 4 * 16 + byte b / 16))
           (String (base64_char (byte b mod 16 * 4)) "="))
  | String a (String b (String c rest)) =>
      String (base64_char (byte a / 4))
        (String (base64_char (byte a mod 4 * 16 + byte b / 16))
           (String (base64_char (byte b mod 16 * 4 + byte c / 64))
              (String (base64_char (byte c mod 64)) (base64_encode rest))))
  end%N.

(** The decoder skips the characters that are not base64 characters and
    stops at the first padding character. *)
Fixpoint sextets (s : string) : list N :=
  match s with
  | EmptyString => []
  | String c s' =>
      if Ascii.eqb c "=" then []
      else match unbase64 c with
           | Some n => n :: sextets s'
           | None => sextets s'
           end
  end.

Fixpoint bytes_of_sextets (l : list N) : string :=
  match l with
  | s1 :: s2 :: s3 :: s4 :: rest =>
      String (char (s1 * 4 + s2 / 16))
        (String (char (s2 mod 16 * 16 + s3 / 4))
           (String (char (s3 mod 4 * 64 + s4)) (bytes_of_sextets rest)))
  | [s1; s2; s3] =>
      String (char (s1 * 4 + s2 / 16))
        (String (char (s2 mod 16 * 16 + s3 / 4)) "")
  | [s1; s2] => String (char (s1 * 4 + s2 / 16)) ""
  | _ => ""
  end%N.

(** [Buffer.from(s, "base64")] *)
Definition base64_decode (s : string) : string := bytes_of_sextets (sextets s).

(** *** JSON.stringify *)


(** The double quote character. *)
Definition dquote : ascii := "034"%char.

Definition hex_char (n : N) : ascii :=
  default "0"%char (String.get (N.to_nat n) "0123456789abcdef").

(** QuoteJSONString: the escape of one character. *)
Definition escape_char (c : ascii) : string :=
  let n := byte c in
  if (n =? 34)%N then String "\" (String dquote "")
  else if (n =? 92)%N then "\\"
  else if (n =? 8)%N then "\b"
  else if (n =? 9)%N then "\t"
  else if (n =? 10)%N then "\n"
  else if (n =? 12)%N then "\f"
  else if (n =? 13)%N then "\r"
  else if (n <? 32)%N then
    "\u00" +:+ String (hex_char (n / 16)) (String (hex_char (n mod 16)) "")
  else String c "".

Fixpoint escape (s : string) : string :=
  match s with
  | EmptyString => ""
  | String c s' => escape_char c +:+ escape s'
  end.

Definition quote (s : string) : string :=
  String dquote (escape s +:+ String dquote "").

(** [JSON.stringify(v)]; [None] stands for the result [undefined].  An
    undefined array element is written [null], an undefined member is
    omitted.  The members of an object are written in the order in which
    the map lists them. *)
Fixpoint JSON_stringify (v : value) : option string :=
  match v with
  | VUndef => None
  | VNull => Some "null"
  | VBool true => Some "true"
  | VBool false => Some "false"
  | VNum n => Some (pretty n)
  | VStr s => Some (quote s)
  | VArr l =>
      Some ("[" +:+ String.concat ","
                      (map (λ x, default "null" (JSON_stringify x)) l)
            +:+ "]")
  | VObj m =>
      Some ("{" +:+ String.concat ","
                      (omap (λ kv : string * option string,
                               (λ s, quote kv.1 +:+ ":" +:+ s) <$> kv.2)
                            (map_to_list (JSON_stringify <$> m)))
            +:+ "}")
  end.

(** *** JSON.parse *)

Definition is_ws (c : ascii) : bool :=
  let n := byte c in (n =? 32)%N || (n =? 9)%N || (n =? 10)%N || (n =? 13)%N.

Fixpoint skip_ws (s : string) : string :=
  match s with
  | EmptyString => ""
  | String c s' => if is_ws c then skip_ws s' else s
  end.

Definition digit_value (c : ascii) : option N :=
  let n := byte c in
  if (48 <=? n)%N && (n <=? 57)%N then Some (n - 48)%N else None.

Definition hex_value (c : ascii) : option N :=
  let n := byte c in
  if (48 <=? n)%N && (n <=? 57)%N then Some (n - 48)%N
  else if (97 <=? n)%N && (n <=? 102)%N then Some (n - 87)%N
  else if (65 <=? n)%N && (n <=? 70)%N then Some (n - 55)%N
  else None.

Definition hex4 (h1 h2 h3 h4 : ascii) : option N :=
  a ← hex_value h1; b ← hex_value h2; c ← hex_value h3; d ← hex_value h4;
  Some (((a * 16 + b) * 16 + c) * 16 + d)%N.

(** The UTF-8 form of a code point. *)
Definition utf8 (n : N) : string :=
  if (n <? 128)%N then String (char n) ""
  else if (n <? 2048)%N then
    String (char (192 + n / 64)) (String (char (128 + n mod 64)) "")
  else if (n <? 65536)%N then
    String (char (224 + n / 4096))
      (String (char (128 + n / 64 mod 64)) (String (char (128 + n mod 64)) ""))
  else
    String (char (240 + n / 262144))
      (String (char (128 + n / 4096 mod 64))
         (String (char (128 + n / 64 mod 64))
            (String (char (128 + n mod 64)) ""))).

Definition is_high_surrogate (n : N) : bool := (55296 <=? n)%N && (n <? 56320)%N.
Definition is_low_surrogate (n : N) : bool := (56320 <=? n)%N && (n <? 57344)%N.

(** The escapes of one character: the character after the backslash. *)
Definition unescape (e : ascii) : option ascii :=
  let n := byte e in
  if (n =? 34)%N then Some dquote
  else if (n =? 92)%N then Some "\"%char
  else if (n =? 47)%N then Some "/"%char
  else if (n =? 98)%N then Some "008"%char
  else if (n =? 102)%N then Some "012"%char
  else if (n =? 110)%N then Some "010"%char
  else if (n =? 114)%N then Some "013"%char
  else if (n =? 116)%N then Some "009"%char
  else None.

(** The characters of a string literal after its opening quote, up to the
    closing quote, and what follows it.  A lone surrogate has no byte
    string form and is rejected. *)
Fixpoint parse_chars (s : string) : option (string * string) :=
  match s with
  | EmptyString => None
  | String c s' =>
      if Ascii.eqb c dquote then Some ("", s')
      else if Ascii.eqb c "\" then
        match s' with
        | String "u" (String h1 (String h2 (String h3 (String h4 s5)))) =>
            n ← hex4 h1 h2 h3 h4;
            if is_high_surrogate n then
              match s5 with
              | String "\" (String "u"
                  (String l1 (String l2 (String l3 (String l4 s11))))) =>
                  lo ← hex4 l1 l2 l3 l4;
                  if is_low_surrogate lo then
                    '(str, rest) ← parse_chars s11;
                    Some (utf8 (65536 + (n - 55296) * 1024 + (lo - 56320))
                          +:+ str, rest)
                  else None
              | _ => None
              end
            else if is_low_surrogate n then None
            else '(str, rest) ← parse_chars s5; Some (utf8 n +:+ str, rest)
        | String e s'' =>
            c' ← unescape e;
            '(str, rest) ← parse_chars s'';
            Some (String c' str, rest)
        | EmptyString => None
        end
      else if (byte c <? 32)%N then None
      else '(str, rest) ← parse_chars s'; Some (String c str, rest)
  end.

Fixpoint digits (acc : N) (s : string) : N * string :=
  match s with
  | EmptyString => (acc, "")
  | String c s' =>
      match digit_value c with
      | Some d => digits (acc * 10 + d) s'
      | None => (acc, s)
      end
  end.

Definition starts_with (p : ascii → bool) (s : string) : bool :=
  match s with
  | EmptyString => false
  | String c _ => p c
  end.

Definition is_digit (c : ascii) : bool := bool_decide (is_Some (digit_value c)).

(** An unsigned integer without superfluous leading zero. *)
Definition parse_nat (s : string) : option (N * string) :=
  match s with
  | EmptyString => None
  | String c s' =>
      d ← digit_value c;
      if (d =? 0)%N && starts_with is_digit s' then None
      else Some (digits 0 s)
  end.

(** An integer: an optional minus sign and an unsigned integer. *)
Definition parse_integer (s : string) : option (Z * string) :=
  match s with
  | EmptyString => None
  | String c s' =>
      if Ascii.eqb c "-" then
        '(n, rest) ← parse_nat s'; Some (- Z.of_N n, rest)%Z
      else
        '(n, rest) ← parse_nat s; Some (Z.of_N n, rest)
  end.

(** A number.  A fraction or an exponent part would denote a number
    outside the integer fragment of the model; it is not accepted. *)
Definition parse_number (s : string) : option (value * string) :=
  '(n, rest) ← parse_integer s;
  if starts_with (λ c, bool_decide (c ∈ ["."; "e"; "E"]%char)) rest then None
  else Some (VNum n, rest).

Fixpoint strip_prefix (p s : string) : option string :=
  match p, s with
  | EmptyString, _ => Some s
  | String a p', String b s' => if Ascii.eqb a b then strip_prefix p' s' else None
  | String _ _, EmptyString => None
  end.

Definition parse_literal (lit : string) (v : value) (s : string)
    : option (value * string) :=
  rest ← strip_prefix lit s; Some (v, rest).

(** An object from its members in source order: a later duplicate wins. *)
Definition object_of (members : list (string * value)) : gmap string value :=
  list_to_map (reverse members).

Fixpoint parse_value (fuel : nat) (s : string) : option (value * string) :=
  match fuel with
  | O => None
  | S fuel' =>
      match skip_ws s with
      | String "n" _ as t => parse_literal "null" VNull t
      | String "t" _ as t => parse_literal "true" (VBool true) t
      | String "f" _ as t => parse_literal "false" (VBool false) t
      | String "034" t =>
          '(str, rest) ← parse_chars t; Some (VStr str, rest)
      | String "[" t =>
          match skip_ws t with
          | String "]" rest => Some (VArr [], rest)
          | _ => '(l, rest) ← parse_elements fuel' t; Some (VArr l, rest)
          end
      | String "{" t =>
          match skip_ws t with
          | String "}" rest => Some (VObj ∅, rest)
          | _ =>
              '(ms, rest) ← parse_members fuel' t;
              Some (VObj (object_of ms), rest)
          end
      | t => parse_number t
      end
  end
with parse_elements (fuel : nat) (s : string) : option (list value * string) :=
  match fuel with
  | O => None
  | S fuel' =>
      '(v, rest) ← parse_value fuel' s;
      match skip_ws rest with
      | String "," rest' =>
          '(vs, rest'') ← parse_elements fuel' rest'; Some (v :: vs, rest'')
      | String "]" rest' => Some ([v], rest')
      | _ => None
      end
  end
with parse_members (fuel : nat) (s : string)
    : option (list (string * value) * string) :=
  match fuel with
  | O => None
  | S fuel' =>
      match skip_ws s with
      | String "034" t =>
          '(k, rest) ← parse_chars t;
          match skip_ws rest with
          | String ":" rest1 =>
              '(v, rest2) ← parse_value fuel' rest1;
              match skip_ws rest2 with
              | String "," rest3 =>
                  '(ms, rest4) ← parse_members fuel' rest3;
                  Some ((k, v) :: ms, rest4)
              | String "}" rest3 => Some ([(k, v)], rest3)
              | _ => None
              end
          | _ => None
          end
      | _ => None
      end
  end.

(** [JSON.parse(s)]; [None] stands for a thrown SyntaxError. *)
Definition JSON_parse (s : string) : option value :=
  '(v, rest) ← parse_value (S (String.length s)) s;
  if String.eqb (skip_ws rest) "" then Some v else None.

(** What may follow a value inside a document: nothing, or a separator. *)
Definition delimited (rest : string) : bool :=
  match rest with
  | EmptyString => true
  | String c _ => bool_decide (c ∈ [","; "]"; "}"]%char)
  end.

(** A value without [undefined] anywhere inside it. *)
Fixpoint serializable (v : value) : bool :=
  match v with
  | VUndef => false
  | VArr l => forallb serializable l
  | VObj m => map_fold (λ _ x b, serializable x && b) true m
  | _ => true
  end.

(** The number of nodes of a value. *)
Fixpoint nodes (v : value) : nat :=
  match v with
  | VArr l => S (foldr (λ x n, nodes x + n) 0 l)
  | VObj m => S (map_fold (λ _ x n, nodes x + n) 0 m)
  | _ => 1
  end.

(** What [JSON.stringify] writes for a value inside an array. *)
Definition printed (v : value) : string := default "null" (JSON_stringify v).

(** The text of one member of an object. *)
Definition member '((k, v) : string * value) : string :=
  quote k +:+ ":" +:+ printed v.

(** The first character of the text of a value. *)
Definition value_start (c : ascii) : bool :=
  let n := byte c in
  ((48 <=? n)%N && (n <=? 57)%N) || (n =? 45)%N || (n =? 110)%N
  || (n =? 116)%N || (n =? 102)%N || (n =? 34)%N || (n =? 91)%N
  || (n =? 123)%N.

(** [text] is read back as [v], whatever follows it in the document. *)
Definition reads_back (v : value) (text : string) : Prop :=
  ∀ fuel rest,
    delimited rest = true → (String.length text ≤ fuel)%nat →
    parse_value fuel (text +:+ rest) = Some (v, rest).

(** The fuel a separated list of texts takes. *)
Definition total_length (texts : list string) : nat :=
  foldr (λ t n, S (String.length t) + n)%nat 0%nat texts.

(** [JSON.stringify] writes [printed v], which [JSON.parse] reads back,
    and which starts as a value does. *)
Definition round_trips (v : value) : Prop :=
  JSON_stringify v = Some (printed v)
  ∧ reads_back v (printed v)
  ∧ ∃ c t, printed v = String c t ∧ value_start c = true.

End Platform.

(* ===================================================================== *)
(** ** keys.ts *)
(* ===================================================================== *)

Module Keys.

Record DodoKey : Type := { pk : string; sk : string }.

Record KeyTransformer : Type := {
  toKey : value → completion DodoKey;
  fromId : string → completion DodoKey
}.

Definition single (type : string) : KeyTransformer := {|
  toKey := λ item,
    id ← get_prop item "id";
    Return {| pk := type +:+ "#" +:+ toString id;
              sk := type +:+ "#META" |};
  fromId := λ id,
    Return {| pk := type +:+ "#" +:+ id;
              sk := type +:+ "#META" |}
|}.

Definition tenant (type : string) : KeyTransformer := {|
  toKey := λ item,
    tenantId ← get_prop item "tenantId";
    id ← get_prop item "id";
    Return {| pk := "TENANT#" +:+ toString tenantId;
              sk := type +:+ "#" +:+ toString id |};
  fromId := λ id,
    Throw (Error "Tenant transformer requires tenantId")
|}.

Definition hierarchy (type : string) : KeyTransformer := {|
  toKey := λ item,
    parentId ← get_prop item "parentId";
    id ← get_prop item "id";
    Return {| pk := type +:+ "#" +:+ toString parentId;
              sk := type +:+ "#" +:+ toString id |};
  fromId := λ id,
    Throw (Error "Hierarchy transformer requires parentId")
|}.

(** [custom(toKey, fromId?)]: the caller's functions have the types
    [(item: T) => DodoKey] and [(id: string) => DodoKey]. *)
Definition custom (toKey : value → DodoKey)
    (fromId : option (string → DodoKey)) : KeyTransformer := {|
  Keys.toKey := λ item, Return (toKey item);
  Keys.fromId :=
    match fromId with
    | Some f => λ id, Return (f id)
    | None => λ _, Throw (Error "fromId not implemented")
    end
|}.

End Keys.

(** [for (const x of xs) { ... }] collecting one result per element, in
    order, in a monad with state. *)
Definition mapM {S A B} (f : A → M S B) : list A → M S (list B) :=
  fix go (xs : list A) : M S (list B) :=
    match xs with
    | [] => ret []
    | x :: xs' => bind (f x) (λ y, bind (go xs') (λ ys, ret (y :: ys)))
    end.

(** [xs.map(f)] for an [f] that may throw: the first throw ends the map. *)
Definition mapC {A B} (f : A → completion B) : list A → completion (list B) :=
  fix go (xs : list A) : completion (list B) :=
    match xs with
    | [] => Return []
    | x :: xs' => cbind (f x) (λ y, cbind (go xs') (λ ys, Return (y :: ys)))
    end.

(** [xs.filter(p)] for a [p] that may throw. *)
Definition filterC {A} (p : A → completion bool) : list A → completion (list A) :=
  fix go (xs : list A) : completion (list A) :=
    match xs with
    | [] => Return []
    | x :: xs' =>
        cbind (p x) (λ keep : bool,
          cbind (go xs') (λ ys, Return (if keep then x :: ys else ys)))
    end.

(* ===================================================================== *)
(** ** utils.ts: the filter expression compiler *)
(* ===================================================================== *)

Module Utils.

(** A [FilterExpression] node is discriminated by the keys it carries
    (["attribute" in f], ["eq" in f], ..., in that order), so a node is
    modelled by the presence or absence of every key the compiler looks
    at; the shapes of the TypeScript union are the nodes carrying exactly
    the keys of one variant. *)
#[warnings="-register-all"]
Inductive FilterExpression : Type :=
  Filter {
    attribute : option string;
    eq_ : option value;
    ne : option value;
    exists_ : option bool;
    contains : option value;
    in_ : option (list value);
    and_ : option (list FilterExpression);
    or_ : option (list FilterExpression);
    not_ : option FilterExpression
  }.

(** The object literal [{}], and the shapes of the union. *)
Definition no_keys : FilterExpression :=
  Filter None None None None None None None None None.
Definition Eq (a : string) (v : value) : FilterExpression :=
  Filter (Some a) (Some v) None None None None None None None.
Definition Ne (a : string) (v : value) : FilterExpression :=
  Filter (Some a) None (Some v) None None None None None None.
Definition Exists (a : string) (b : bool) : FilterExpression :=
  Filter (Some a) None None (Some b) None None None None None.
Definition Contains (a : string) (v : value) : FilterExpression :=
  Filter (Some a) None None None (Some v) None None None None.
Definition In (a : string) (vs : list value) : FilterExpression :=
  Filter (Some a) None None None None (Some vs) None None None.
Definition And (fs : list FilterExpression) : FilterExpression :=
  Filter None None None None None None (Some fs) None None.
Definition Or (fs : list FilterExpression) : FilterExpression :=
  Filter None None None None None None None (Some fs) None.
Definition Not (f : FilterExpression) : FilterExpression :=
  Filter None None None None None None None None (Some f).

(** The variables [buildExpr] closes over. *)
Record Closure : Type := {
  values : gmap string value;
  names : gmap string string;
  valueCounter : nat;
  nameCounter : nat
}.

(** [`#n${nameCounter++}`] *)
Definition fresh_name : M Closure string := λ c,
  (Return ("#n" +:+ pretty (nameCounter c)),
   {| values := values c; names := names c;
      valueCounter := valueCounter c; nameCounter := S (nameCounter c) |}).

(** [`:v${valueCounter++}`] *)
Definition fresh_value : M Closure string := λ c,
  (Return (":v" +:+ pretty (valueCounter c)),
   {| values := values c; names := names c;
      valueCounter := S (valueCounter c); nameCounter := nameCounter c |}).

(** [names[nameKey] = attr] *)
Definition set_name (nameKey attr : string) : M Closure unit := λ c,
  (Return (),
   {| values := values c; names := <[nameKey := attr]> (names c);
      valueCounter := valueCounter c; nameCounter := nameCounter c |}).

(** [values[valKey] = v] *)
Definition set_value (valKey : string) (v : value) : M Closure unit := λ c,
  (Return (),
   {| values := <[valKey := v]> (values c); names := names c;
      valueCounter := valueCounter c; nameCounter := nameCounter c |}).

(** One operand: allocate a value placeholder and bind it. *)
Definition operand (v : value) : M Closure string :=
  valKey ← fresh_value;
  _ ← set_value valKey v;
  ret valKey.

Fixpoint buildExpr (f : FilterExpression) : M Closure string :=
  let 'Filter f_attribute f_eq f_ne f_exists f_contains f_in
              f_and f_or f_not := f in
  match f_attribute with
  | Some attr =>
      nameKey ← fresh_name;
      _ ← set_name nameKey attr;
      match f_eq, f_ne, f_exists, f_contains, f_in with
      | Some v, _, _, _, _ =>
          valKey ← operand v;
          ret (nameKey +:+ " = " +:+ valKey)
      | None, Some v, _, _, _ =>
          valKey ← operand v;
          ret (nameKey +:+ " <> " +:+ valKey)
      | None, None, Some b, _, _ =>
          ret (if b then "attribute_exists(" +:+ nameKey +:+ ")"
               else "attribute_not_exists(" +:+ nameKey +:+ ")")
      | None, None, None, Some v, _ =>
          valKey ← operand v;
          ret ("contains(" +:+ nameKey +:+ ", " +:+ valKey +:+ ")")
      | None, None, None, None, Some vals =>
          inValues ← mapM operand vals;
          ret (nameKey +:+ " IN (" +:+ String.concat "," inValues +:+ ")")
      | None, None, None, None, None =>
          throw (Error ("Unsupported filter condition on attribute " +:+ attr))
      end
  | None =>
      match f_and, f_or, f_not with
      | Some fs, _, _ =>
          es ← mapM buildExpr fs;
          ret ("(" +:+ String.concat " AND " es +:+ ")")
      | None, Some fs, _ =>
          es ← mapM buildExpr fs;
          ret ("(" +:+ String.concat " OR " es +:+ ")")
      | None, None, Some g =>
          e ← buildExpr g;
          ret ("NOT (" +:+ e +:+ ")")
      | None, None, None =>
          throw (Error
            "Invalid filter expression: missing attribute, and, or, or not")
      end
  end.

Module Compiled.
Record t : Type := {
  expr : string;
  names : gmap string string;
  values : gmap string value
}.
End Compiled.

Definition buildFilterExpression (filter : FilterExpression)
    : completion Compiled.t :=
  match buildExpr filter
          {| values := ∅; names := ∅; valueCounter := 0; nameCounter := 0 |}
  with
  | (Return e, c) =>
      Return {| Compiled.expr := e;
                Compiled.names := names c;
                Compiled.values := values c |}
  | (Throw e, _) => Throw e
  end.

(** The sub-expressions [buildExpr] descends into. *)
Definition children (f : FilterExpression) : list FilterExpression :=
  match attribute f with
  | Some _ => []
  | None =>
      match and_ f, or_ f, not_ f with
      | Some fs, _, _ => fs
      | None, Some fs, _ => fs
      | None, None, Some g => [g]
      | None, None, None => []
      end
  end.

(** A node of no recognized shape: a leaf without an operator key, or a
    node with none of [attribute], [and], [or], [not]. *)
Definition unrecognized (f : FilterExpression) : bool :=
  match attribute f with
  | Some _ =>
      match eq_ f, ne f, exists_ f, contains f, in_ f with
      | None, None, None, None, None => true
      | _, _, _, _, _ => false
      end
  | None =>
      match and_ f, or_ f, not_ f with
      | None, None, None => true
      | _, _, _ => false
      end
  end.

Inductive contains_unrecognized : FilterExpression → Prop :=
| unrecognized_here f :
    unrecognized f = true → contains_unrecognized f
| unrecognized_below f g :
    g ∈ children f → contains_unrecognized g → contains_unrecognized f.

(** The two errors of the compiler (the specification's
    InvalidExpression). *)
Definition InvalidExpression (e : exn) : Prop :=
  (∃ attr, e = Error ("Unsupported filter condition on attribute " +:+ attr))
  ∨ e = Error "Invalid filter expression: missing attribute, and, or, or not".

(** The attributes of the leaves, and the operands they carry, in the
    order of the traversal. *)
Fixpoint leaf_attributes (f : FilterExpression) : list string :=
  let 'Filter f_attribute _ _ _ _ _ f_and f_or f_not := f in
  match f_attribute with
  | Some attr => [attr]
  | None =>
      match f_and, f_or, f_not with
      | Some fs, _, _ => concat (map leaf_attributes fs)
      | None, Some fs, _ => concat (map leaf_attributes fs)
      | None, None, Some g => leaf_attributes g
      | None, None, None => []
      end
  end.

Fixpoint leaf_operands (f : FilterExpression) : list value :=
  let 'Filter f_attribute f_eq f_ne f_exists f_contains f_in
              f_and f_or f_not := f in
  match f_attribute with
  | Some _ =>
      match f_eq, f_ne, f_exists, f_contains, f_in with
      | Some v, _, _, _, _ => [v]
      | None, Some v, _, _, _ => [v]
      | None, None, Some _, _, _ => []
      | None, None, None, Some v, _ => [v]
      | None, None, None, None, Some vals => vals
      | None, None, None, None, None => []
      end
  | None =>
      match f_and, f_or, f_not with
      | Some fs, _, _ => concat (map leaf_operands fs)
      | None, Some fs, _ => concat (map leaf_operands fs)
      | None, None, Some g => leaf_operands g
      | None, None, None => []
      end
  end.

(** The table holding, under [prefix] followed by its index, every
    element of a list given latest first. *)
Fixpoint placeholders {A} (prefix : string) (latest_first : list A)
    : gmap string A :=
  match latest_first with
  | [] => ∅
  | x :: earlier =>
      <[prefix +:+ pretty (length earlier) := x]> (placeholders prefix earlier)
  end.

(** The closure's tables and counters hold exactly the allocations made
    so far. *)
Definition holds (c : Closure) (attrs : list string) (operands : list value)
    : Prop :=
  names c = placeholders "#n" attrs ∧ nameCounter c = length attrs
  ∧ values c = placeholders ":v" operands ∧ valueCounter c = length operands.

Definition role_and_status : FilterExpression :=
  And [Eq "role" (VStr "admin"); Ne "status" (VStr "inactive")].

(** The closure after a leaf has allocated and bound its name
    placeholder. *)
Definition named (attr : string) (c : Closure) : Closure :=
  {| values := values c;
     names := <["#n" +:+ pretty (nameCounter c) := attr]> (names c);
     valueCounter := valueCounter c;
     nameCounter := S (nameCounter c) |}.

(** [buildExpr f] extends what the closure holds by the leaves and
    operands of [f]. *)
Definition tracked (f : FilterExpression) : Prop :=
  ∀ c e c' attrs operands,
    buildExpr f c = (Return e, c') →
    holds c attrs operands →
    holds c' (rev (leaf_attributes f) ++ attrs)
             (rev (leaf_operands f) ++ operands).

(** [buildExpr f] throws one of the two errors when [f] contains an
    unrecognized node, and returns otherwise. *)
Definition decided (f : FilterExpression) : Prop :=
  ∀ c,
    (contains_unrecognized f
     ∧ ∃ e c', buildExpr f c = (Throw e, c') ∧ InvalidExpression e)
    ∨ (¬ contains_unrecognized f
       ∧ ∃ e c', buildExpr f c = (Return e, c')).

(** *** encrypt / decrypt *)

Import Platform.

(** [Buffer.from(JSON.stringify(value)).toString("base64")].  When
    [JSON.stringify] returns [undefined], [Buffer.from] throws. *)
Definition encrypt (v : value) : completion value :=
  match JSON_stringify v with
  | Some text => Return (VStr (base64_encode text))
  | None =>
      Throw (TypeError "The first argument must be of type string or an instance of Buffer, ArrayBuffer, or Array or an Array-like Object. Received undefined")
  end.

(** [try { return JSON.parse(Buffer.from(encrypted, "base64").toString()) }
    catch { return encrypted }].  The argument is what the document client
    returns for an encrypted field, a string; for another argument
    [Buffer.from] is taken to throw. *)
Definition decrypt (encrypted : value) : value :=
  match encrypted with
  | VStr s =>
      match JSON_parse (base64_decode s) with
      | Some v => v
      | None => encrypted
      end
  | _ => encrypted
  end.

(** What [encrypt] returns for a value that [JSON.stringify] can write. *)
Definition cipher (v : value) : value := VStr (base64_encode (printed v)).

(** *** toSnakeCase / toCamelCase *)

(** What [/[A-Z]/] and [/[a-z]/] match.  In a byte string these bytes are
    the letters themselves: the bytes of a multi-byte character are all
    above 127. *)
Definition is_upper (c : ascii) : bool :=
  (65 <=? byte c)%N && (byte c <=? 90)%N.
Definition is_lower (c : ascii) : bool :=
  (97 <=? byte c)%N && (byte c <=? 122)%N.

(** [letter.toLowerCase()] for a letter A-Z, [letter.toUpperCase()] for a
    letter a-z. *)
Definition toLowerCase (letter : ascii) : ascii := char (byte letter + 32).
Definition toUpperCase (letter : ascii) : ascii := char (byte letter - 32).

(** [key.replace(/[A-Z]/g, (letter) => `_${letter.toLowerCase()}`)] *)
Fixpoint snakeKey (key : string) : string :=
  match key with
  | EmptyString => ""
  | String c rest =>
      if is_upper c then String "_" (String (toLowerCase c) (snakeKey rest))
      else String c (snakeKey rest)
  end.

(** [key.replace(/_([a-z])/g, (_, letter) => letter.toUpperCase())]: the
    matches are found from left to right and do not overlap. *)
Fixpoint camelKey (key : string) : string :=
  match key with
  | EmptyString => ""
  | String c rest =>
      match rest with
      | String letter rest' =>
          if Ascii.eqb c "_" && is_lower letter
          then String (toUpperCase letter) (camelKey rest')
          else String c (camelKey rest)
      | EmptyString => String c ""
      end
  end.

(** [Object.keys(obj).reduce((acc, key) => { acc[f(key)] = obj[key];
    return acc }, {})]: where two keys are renamed to the same name, the
    one [Object.keys] lists later wins.  The keys are taken in the order
    in which the map lists them. *)
Definition rekey (f : string → string) (obj : gmap string value)
    : gmap string value :=
  foldl (λ acc kv, <[f kv.1 := kv.2]> acc) ∅ (map_to_list obj).

Fixpoint toSnakeCase (obj : value) : value :=
  match obj with
  | VArr l => VArr (map toSnakeCase l)
  | VObj m => VObj (rekey snakeKey (toSnakeCase <$> m))
  | _ => obj
  end.

Fixpoint toCamelCase (obj : value) : value :=
  match obj with
  | VArr l => VArr (map toCamelCase l)
  | VObj m => VObj (rekey camelKey (toCamelCase <$> m))
  | _ => obj
  end.

(** A key without capital letters, and a key in which no underscore is
    followed by a small letter. *)
Fixpoint snake_cased (key : string) : bool :=
  match key with
  | EmptyString => true
  | String c rest => negb (is_upper c) && snake_cased rest
  end.

Fixpoint camel_cased (key : string) : bool :=
  match key with
  | EmptyString => true
  | String c rest =>
      match rest with
      | String letter _ => negb (Ascii.eqb c "_" && is_lower letter)
      | EmptyString => true
      end && camel_cased rest
  end.

(** Every property name of a value, at every depth, satisfies [p]. *)
Fixpoint every_key (p : string → bool) (v : value) : bool :=
  match v with
  | VArr l => forallb (every_key p) l
  | VObj m => map_fold (λ k x b, p k && every_key p x && b) true m
  | _ => true
  end.

(** *** buildQueryExpression *)

(** An [SKCondition] is discriminated by the keys it carries (["eq" in
    params.sk], ["beginsWith" in params.sk], ... in this order), so it is
    modelled by the presence or absence of each key. *)
Module SKCondition.
Record t : Type := {
  eq_ : option value;
  beginsWith : option value;
  between : option (list value);
  gt : option value;
  gte : option value;
  lt : option value;
  lte : option value
}.
End SKCondition.

Module QueryParams.
Record t : Type := {
  pk : value;
  sk : option SKCondition.t;
  limit : value;
  cursor : value;
  ascending : value;
  index : value;
  filter : option FilterExpression;
  projection : option (list string)
}.
End QueryParams.

Module QueryExpression.
Record t : Type := {
  KeyConditionExpression : string;
  ExpressionAttributeValues : option (gmap string value);
  ExpressionAttributeNames : option (gmap string string);
  FilterExpression : option string;
  ProjectionExpression : option string
}.
End QueryExpression.

(** [Object.keys(table).length ? table : undefined] *)
Definition unless_empty {A} (table : gmap string A) : option (gmap string A) :=
  if bool_decide (size table = 0) then None else Some table.

(** The key condition and its bindings: the statements from
    [let KeyConditionExpression = `pk = :pk`] to the end of
    [if (params.sk) { ... }]. *)
Definition keyCondition (params : QueryParams.t)
    : string * gmap string value :=
  let KeyConditionExpression := "pk = :pk" in
  let ExpressionAttributeValues : gmap string value :=
    {[ ":pk" := QueryParams.pk params ]} in
  match QueryParams.sk params with
  | Some sk =>
      match SKCondition.eq_ sk, SKCondition.beginsWith sk,
            SKCondition.between sk, SKCondition.gt sk, SKCondition.gte sk,
            SKCondition.lt sk, SKCondition.lte sk with
      | Some v, _, _, _, _, _, _ =>
          (KeyConditionExpression +:+ " AND sk = :sk",
           <[":sk" := v]> ExpressionAttributeValues)
      | None, Some v, _, _, _, _, _ =>
          (KeyConditionExpression +:+ " AND begins_with(sk, :sk)",
           <[":sk" := v]> ExpressionAttributeValues)
      | None, None, Some range, _, _, _, _ =>
          (KeyConditionExpression +:+ " AND sk BETWEEN :sk_start AND :sk_end",
           <[":sk_end" := default VUndef (range !! 1%nat)]>
             (<[":sk_start" := default VUndef (range !! 0%nat)]>
                ExpressionAttributeValues))
      | None, None, None, Some v, _, _, _ =>
          (KeyConditionExpression +:+ " AND sk > :sk",
           <[":sk" := v]> ExpressionAttributeValues)
      | None, None, None, None, Some v, _, _ =>
          (KeyConditionExpression +:+ " AND sk >= :sk",
           <[":sk" := v]> ExpressionAttributeValues)
      | None, None, None, None, None, Some v, _ =>
          (KeyConditionExpression +:+ " AND sk < :sk",
           <[":sk" := v]> ExpressionAttributeValues)
      | None, None, None, None, None, None, Some v =>
          (KeyConditionExpression +:+ " AND sk <= :sk",
           <[":sk" := v]> ExpressionAttributeValues)
      | None, None, None, None, None, None, None =>
          (KeyConditionExpression, ExpressionAttributeValues)
      end
  | None => (KeyConditionExpression, ExpressionAttributeValues)
  end.

Definition buildQueryExpression (params : QueryParams.t)
    : completion QueryExpression.t :=
  let '(KeyConditionExpression, ExpressionAttributeValues) :=
    keyCondition params in
  let ExpressionAttributeNames : gmap string string := ∅ in
  '(FilterExpression, ExpressionAttributeValues, ExpressionAttributeNames) ←
    match QueryParams.filter params with
    | Some filter =>
        compiled ← buildFilterExpression filter;
        (* Object.assign(target, source): the source's members win *)
        Return (Some (Compiled.expr compiled),
                Compiled.values compiled ∪ ExpressionAttributeValues,
                Compiled.names compiled ∪ ExpressionAttributeNames)
    | None =>
        Return (None, ExpressionAttributeValues, ExpressionAttributeNames)
    end;
  let ProjectionExpression :=
    String.concat "," <$> QueryParams.projection params in
  Return {|
    QueryExpression.KeyConditionExpression := KeyConditionExpression;
    QueryExpression.ExpressionAttributeValues :=
      unless_empty ExpressionAttributeValues;
    QueryExpression.ExpressionAttributeNames :=
      unless_empty ExpressionAttributeNames;
    QueryExpression.FilterExpression := FilterExpression;
    QueryExpression.ProjectionExpression := ProjectionExpression
  |}.

(** The same parameters without the filter. *)
Definition unfiltered (params : QueryParams.t) : QueryParams.t := {|
  QueryParams.pk := QueryParams.pk params;
  QueryParams.sk := QueryParams.sk params;
  QueryParams.limit := QueryParams.limit params;
  QueryParams.cursor := QueryParams.cursor params;
  QueryParams.ascending := QueryParams.ascending params;
  QueryParams.index := QueryParams.index params;
  QueryParams.filter := None;
  QueryParams.projection := QueryParams.projection params
|}.

End Utils.

(* ===================================================================== *)
(** ** The document client *)
(* ===================================================================== *)

(** The facade talks to one table through [client.send(new XCommand(..))].
    The client is an external collaborator; it is modelled as a table
    indexed by the primary key [(pk, sk)], together with the log of the
    commands it was sent.  Requests themselves never fail for transport
    reasons in this model. *)
Module Client.
Import Keys.

Inductive Command : Type :=
| GetCommand (Key : DodoKey)
| PutCommand (Item : value)
| DeleteCommand (Key : DodoKey).

Record Store : Type := {
  table : gmap (string * string) (gmap string value);
  sent : list Command
}.

Definition log (c : Command) (s : Store) : Store :=
  {| table := table s; sent := sent s ++ [c] |}.

(** [marshallOptions: { removeUndefinedValues: true }]: undefined members
    of maps and lists are dropped, at every depth, when an item is
    written. *)
Fixpoint marshall (v : value) : value :=
  match v with
  | VArr l =>
      VArr (omap (λ x, if is_undef x then None else Some (marshall x)) l)
  | VObj m =>
      VObj (omap (λ x, if is_undef x then None else Some (marshall x)) m)
  | _ => v
  end.

(** What is written for a member: nothing when it is undefined. *)
Definition storable (x : value) : option value :=
  if is_undef x then None else Some (marshall x).

(** The primary key attributes of an item. *)
Definition primary_key (attrs : gmap string value) : option (string * string) :=
  match attrs !! "pk", attrs !! "sk" with
  | Some (VStr p), Some (VStr s) => Some (p, s)
  | _, _ => None
  end.

(** [client.send(new GetCommand({ TableName, Key }))], yielding
    [response.Item]. *)
Definition send_get (Key : DodoKey) : M Store (option (gmap string value)) :=
  λ s, (Return (table s !! (pk Key, sk Key)), log (GetCommand Key) s).

(** [client.send(new PutCommand({ TableName, Item }))]: an upsert at the
    item's own primary key; an item without one is rejected. *)
Definition send_put (Item : value) : M Store unit :=
  λ s,
    match marshall Item with
    | VObj attrs =>
        match primary_key attrs with
        | Some k =>
            (Return (),
             {| table := <[k := attrs]> (table s);
                sent := sent s ++ [PutCommand Item] |})
        | None =>
            (Throw (ValidationException
                      "One of the required keys was not given a value"),
             log (PutCommand Item) s)
        end
    | _ =>
        (Throw (TypeError "Cannot marshall a value that is not an object"),
         log (PutCommand Item) s)
    end.

(** [client.send(new DeleteCommand({ TableName, Key }))] *)
Definition send_delete (Key : DodoKey) : M Store unit :=
  λ s,
    (Return (),
     {| table := delete (pk Key, sk Key) (table s);
        sent := sent s ++ [DeleteCommand Key] |}).

(** The input of a [ScanCommand] as the facade fills it in, and the
    fields of its output the facade reads. *)
Record ScanCommandInput : Type := {
  TableName : string;
  IndexName : value;
  Limit : value;
  ExclusiveStartKey : value
}.

Record ScanCommandOutput : Type := {
  Items : option (list value);
  Count : option Z;
  ScannedCount : option Z;
  LastEvaluatedKey : option (gmap string value)
}.

End Client.

(* ===================================================================== *)
(** ** dodo.ts: the store facade *)
(* ===================================================================== *)

Module Dodo.
Import Keys Client.

Definition Handler : Type := value → completion value.

Record DodoPlugin : Type := {
  name : string;
  onBeforePut : option Handler;
  onAfterGet : option Handler;
  onBeforeQuery : option Handler;
  onAfterQuery : option Handler;
  onBeforeDelete : option Handler
}.

(** [keyof DodoPlugin] *)
Inductive Phase : Type :=
| Name | OnBeforePut | OnAfterGet | OnBeforeQuery | OnAfterQuery
| OnBeforeDelete.

(** [plugin[phase]], kept only when it is a function
    ([fn && typeof fn === "function"]); [name] is a string. *)
Definition handler (plugin : DodoPlugin) (phase : Phase) : option Handler :=
  match phase with
  | Name => None
  | OnBeforePut => onBeforePut plugin
  | OnAfterGet => onAfterGet plugin
  | OnBeforeQuery => onBeforeQuery plugin
  | OnAfterQuery => onAfterQuery plugin
  | OnBeforeDelete => onBeforeDelete plugin
  end.

Record DodoConfig : Type := {
  table : string;
  plugins : option (list DodoPlugin)
}.

(** [{ pk: key.pk, sk: key.sk }] as a value. *)
Definition of_key (key : DodoKey) : value :=
  VObj (<["pk" := VStr (pk key)]> (<["sk" := VStr (sk key)]> ∅)).

(** [cursor ? JSON.parse(Buffer.from(cursor, "base64").toString())
            : undefined].  The cursor is a string (its static type); for
    another truthy value [Buffer.from] is taken to throw. *)
Definition parse_cursor (cursor : value) : completion value :=
  if truthy cursor then
    match cursor with
    | VStr s =>
        match Platform.JSON_parse (Platform.base64_decode s) with
        | Some key => Return key
        | None => Throw (SyntaxError "Unexpected token in JSON")
        end
    | _ =>
        Throw (TypeError "The first argument must be of type string or an instance of Buffer, ArrayBuffer, or Array or an Array-like Object.")
    end
  else Return VUndef.

(** [response.LastEvaluatedKey
       ? Buffer.from(JSON.stringify(response.LastEvaluatedKey))
           .toString("base64")
       : undefined] *)
Definition make_cursor (LastEvaluatedKey : option (gmap string value))
    : completion value :=
  match LastEvaluatedKey with
  | Some key =>
      match Platform.JSON_stringify (VObj key) with
      | Some text => Return (VStr (Platform.base64_encode text))
      | None =>
          Throw (TypeError "The first argument must be of type string or an instance of Buffer, ArrayBuffer, or Array or an Array-like Object. Received undefined")
      end
  | None => Return VUndef
  end.

Section createDodo.
Variable config : DodoConfig.

(** [const plugins = config.plugins ?? []] *)
Definition the_plugins : list DodoPlugin := default [] (plugins config).

Definition applyPlugins (phase : Phase) (data : value) : completion value :=
  (fix loop (ps : list DodoPlugin) (result : value) : completion value :=
     match ps with
     | [] => Return result
     | plugin :: ps' =>
         match handler plugin phase with
         | Some fn => result' ← fn result; loop ps' result'
         | None => loop ps' result
         end
     end) the_plugins data.

Definition get (key : DodoKey) : M Store value :=
  Item ← send_get key;
  match Item with
  | None => ret VNull
  | Some item => lift (applyPlugins OnAfterGet (VObj item))
  end.

Definition put (item : value) : M Store unit :=
  transformed ← lift (applyPlugins OnBeforePut item);
  send_put transformed.

Definition delete (key : DodoKey) : M Store unit :=
  send_delete key.

Definition update (key : DodoKey) (updates : value) : M Store unit :=
  existing ← get key;
  if negb (truthy existing) then
    throw (Error ("Item not found: " +:+ pk key +:+ "/" +:+ sk key))
  else
    let merged := VObj (spread [existing; updates; of_key key]) in
    put merged.

(** [Promise.all(items.map((item) => applyPlugins(phase, item)))].  The
    pipelines of the items advance in step: each starts with its first
    handler when [map] calls it, and every [await] resumes it one turn
    later, after the same turn of the items before it.  With handlers that
    are pure functions the results are those of the pipelines taken one by
    one; when several of them throw, the promise is rejected with the
    throw that happens first, which is the one this order finds. *)
Definition applyPlugins_all (phase : Phase) (items : list value)
    : completion (list value) :=
  (fix loop (ps : list DodoPlugin) (results : list value)
       : completion (list value) :=
     match ps with
     | [] => Return results
     | plugin :: ps' =>
         match handler plugin phase with
         | Some fn => results' ← mapC fn results; loop ps' results'
         | None => loop ps' results
         end
     end) the_plugins items.

(** [new ScanCommand({ TableName: config.table,
                       IndexName: transformed.index,
                       Limit: transformed.limit,
                       ExclusiveStartKey: transformed.cursor ? ... })] *)
Definition ScanCommand (transformed : value) : completion ScanCommandInput :=
  index ← get_prop transformed "index";
  limit ← get_prop transformed "limit";
  cursor ← get_prop transformed "cursor";
  start ← parse_cursor cursor;
  Return {| TableName := table config; IndexName := index; Limit := limit;
            ExclusiveStartKey := start |}.

(** The [QueryResult] built from the response of a scan. *)
Definition scanned (response : ScanCommandOutput) : completion value :=
  items ← applyPlugins_all OnAfterGet (default [] (Items response));
  cursor ← make_cursor (LastEvaluatedKey response);
  Return (VObj (<["items" := VArr items]>
               (<["count" := VNum (default 0%Z (Count response))]>
               (<["scannedCount" :=
                    from_option VNum VUndef (ScannedCount response)]>
               (<["hasMore" :=
                    VBool (bool_decide (is_Some (LastEvaluatedKey response)))]>
               {[ "cursor" := cursor ]}))))).

(** [client.send(new ScanCommand(..))].  What the table service answers
    to a scan (which items, in which order, on which page) is its own
    business: [scan] is modelled over every client. *)
Variable send_scan : ScanCommandInput → M Store ScanCommandOutput.

Definition scan (params : value) : M Store value :=
  transformed ← lift (applyPlugins OnBeforeQuery params);
  command ← lift (ScanCommand transformed);
  response ← send_scan command;
  result ← lift (scanned response);
  lift (applyPlugins OnAfterQuery result).

End createDodo.

End Dodo.

(* ===================================================================== *)
(** ** entity.ts *)
(* ===================================================================== *)

Module Entity.
Import Keys Client.

(** An entity hook receives an argument list. *)
Definition Handler : Type := list value → completion value.

Record EntityPlugin : Type := {
  name : option string;
  beforeCreate : option Handler;
  afterCreate : option Handler;
  beforeGet : option Handler;
  afterGet : option Handler;
  beforeUpdate : option Handler;
  afterUpdate : option Handler;
  beforeDelete : option Handler;
  afterDelete : option Handler;
  beforeQuery : option Handler;
  afterQuery : option Handler
}.

(** [keyof EntityPlugin<TOutput>] *)
Inductive Phase : Type :=
| Name | BeforeCreate | AfterCreate | BeforeGet | AfterGet | BeforeUpdate
| AfterUpdate | BeforeDelete | AfterDelete | BeforeQuery | AfterQuery.

Definition handler (plugin : EntityPlugin) (phase : Phase) : option Handler :=
  match phase with
  | Name => None
  | BeforeCreate => beforeCreate plugin
  | AfterCreate => afterCreate plugin
  | BeforeGet => beforeGet plugin
  | AfterGet => afterGet plugin
  | BeforeUpdate => beforeUpdate plugin
  | AfterUpdate => afterUpdate plugin
  | BeforeDelete => beforeDelete plugin
  | AfterDelete => afterDelete plugin
  | BeforeQuery => beforeQuery plugin
  | AfterQuery => afterQuery plugin
  end.

(** [schema] is the validation collaborator: [schema.parse(x)] returns the
    validated value or throws. *)
Record EntityConfig : Type := {
  name_ : string;
  schema_parse : value → completion value;
  keys : KeyTransformer;
  plugins : option (list EntityPlugin)
}.

(** [a === b].  An object or an array is identical only to itself: a
    member of a record read from the table and a member of a predicate the
    caller made are different objects. *)
Definition strict_equal (a b : value) : bool :=
  match a, b with
  | VUndef, VUndef | VNull, VNull => true
  | VBool x, VBool y => bool_decide (x = y)
  | VNum x, VNum y => bool_decide (x = y)
  | VStr x, VStr y => bool_decide (x = y)
  | _, _ => false
  end.

(** [Object.entries(predicate).every(([key, value]) => item[key] === value)] *)
Definition matches (predicate item : value) : completion bool :=
  if nullish predicate then
    Throw (TypeError "Cannot convert undefined or null to object")
  else
    (fix every (entries : list (string * value)) : completion bool :=
       match entries with
       | [] => Return true
       | (key, value) :: entries' =>
           found ← get_prop item key;
           if strict_equal found value then every entries' else Return false
       end) (map_to_list (own_props predicate)).

Section createEntity.
Variable dodo : Dodo.DodoConfig.
Variable config : EntityConfig.

(** [const { schema, keys, plugins = [] } = config] *)
Definition the_plugins : list EntityPlugin :=
  match plugins config with Some ps => ps | None => [] end.

(** [applyPlugins(phase, ...args)]: the running value starts as
    [args[0]]; every handler is called with the running value followed
    by [args.slice(1)]. *)
Definition applyPlugins (phase : Phase) (args : list value) : completion value :=
  (fix loop (ps : list EntityPlugin) (value : value) : completion JS.value :=
     match ps with
     | [] => Return value
     | plugin :: ps' =>
         match handler plugin phase with
         | Some fn =>
             transformed ← fn (value :: tail args);
             loop ps' (coalesce transformed value)
         | None => loop ps' value
         end
     end) the_plugins (default VUndef (head args)).

(** [const { pk, sk, ...data } = item] *)
Definition strip_key (item : value) : value :=
  VObj (base.delete "pk" (base.delete "sk" (own_props item))).

Definition create (input : value) : M Store value :=
  validated ← lift (schema_parse config input);
  transformed ← lift (applyPlugins BeforeCreate [validated]);
  key ← lift (toKey (keys config) transformed);
  _ ← Dodo.put dodo (VObj (spread [transformed; Dodo.of_key key]));
  ret transformed.

Definition get (id : string) : M Store value :=
  key ← lift (fromId (keys config) id);
  item ← Dodo.get dodo key;
  if negb (truthy item) then ret VNull
  else
    validated ← lift (schema_parse config (strip_key item));
    result ← lift (applyPlugins AfterGet [validated]);
    ret (if is_undef result then VNull else result).

Definition update (id : string) (updates : value) : M Store value :=
  current ← get id;
  if negb (truthy current) then
    throw (Error (name_ config +:+ " " +:+ id +:+ " not found"))
  else
    transformed ← lift (applyPlugins BeforeUpdate [VStr id; updates]);
    let merged := VObj (spread [current; transformed]) in
    validated ← lift (schema_parse config merged);
    key ← lift (fromId (keys config) id);
    _ ← Dodo.put dodo (VObj (spread [validated; Dodo.of_key key]));
    ret validated.

Definition deleteEntity (id : string) : M Store unit :=
  key ← lift (fromId (keys config) id);
  Dodo.delete key.

Variable send_scan : ScanCommandInput → M Store ScanCommandOutput.

(** [({ pk, sk, ...data }) => schema.parse(data)]: destructuring [null]
    or [undefined] throws. *)
Definition parse_data (item : value) : completion value :=
  if nullish item then
    Throw (TypeError ("Cannot destructure '" +:+ toString item +:+ "'"))
  else schema_parse config (strip_key item).

Definition find (predicate : value) : M Store value :=
  result ← Dodo.scan dodo send_scan VUndef;
  items ← lift (get_prop result "items");
  match items with
  | VArr items =>
      parsed ← lift (mapC parse_data items);
      kept ← lift (filterC (matches predicate) parsed);
      ret (VArr kept)
  | _ => throw (TypeError "result.items.map is not a function")
  end.

Definition findOne (predicate : value) : M Store value :=
  results ← find predicate;
  match results with
  | VArr (first :: _) => ret first
  | _ => ret VNull
  end.

End createEntity.

End Entity.

(* ===================================================================== *)
(** ** plugins.ts *)
(* ===================================================================== *)

Module Plugins.

(** [softDelete()].  [now] is the reading of the clock,
    [new Date().toISOString()]. *)
Definition softDelete (now : string) : Entity.EntityPlugin := {|
  Entity.name := None;
  Entity.beforeCreate := None; Entity.afterCreate := None;
  Entity.beforeGet := None;
  Entity.afterGet := Some (λ args,
    let item := default VUndef (args !! 0%nat) in
    if truthy item && String.eqb (typeof item) "object" then
      has ← has_prop "deleted" item;
      if has : bool then
        deleted ← get_prop item "deleted";
        if truthy deleted then Return VNull else Return item
      else Return item
    else Return item);
  Entity.beforeUpdate := Some (λ args,
    let updates := default VUndef (args !! 1%nat) in
    has ← has_prop "deleted" updates;
    if has : bool then
      deleted ← get_prop updates "deleted";
      if is_true deleted then
        Return (VObj (spread [updates; VObj {[ "deletedAt" := VStr now ]}]))
      else Return updates
    else Return updates);
  Entity.afterUpdate := None;
  Entity.beforeDelete := None; Entity.afterDelete := None;
  Entity.beforeQuery := None; Entity.afterQuery := None
|}.

Import Platform.

(** [fields.forEach(field => { if (field in encrypted)
      encrypted[field] = encrypt(encrypted[field]) })] *)
Fixpoint encrypt_fields (fields : list string) (encrypted : gmap string value)
    : completion (gmap string value) :=
  match fields with
  | [] => Return encrypted
  | field :: fields' =>
      match encrypted !! field with
      | Some x =>
          c ← Utils.encrypt x;
          encrypt_fields fields' (<[field := c]> encrypted)
      | None => encrypt_fields fields' encrypted
      end
  end.

Fixpoint decrypt_fields (fields : list string) (decrypted : gmap string value)
    : gmap string value :=
  match fields with
  | [] => decrypted
  | field :: fields' =>
      match decrypted !! field with
      | Some x => decrypt_fields fields' (<[field := Utils.decrypt x]> decrypted)
      | None => decrypt_fields fields' decrypted
      end
  end.

Definition encryption (fields : list string) : Dodo.DodoPlugin := {|
  Dodo.name := "encryption";
  Dodo.onBeforePut := Some (λ item,
    encrypted ← encrypt_fields fields (spread [item]);
    Return (VObj encrypted));
  Dodo.onAfterGet := Some (λ item,
    Return (VObj (decrypt_fields fields (spread [item]))));
  Dodo.onBeforeQuery := None;
  Dodo.onAfterQuery := None;
  Dodo.onBeforeDelete := None
|}.

(** How often a field is listed. *)
Fixpoint occurrences (g : string) (fields : list string) : nat :=
  match fields with
  | [] => 0
  | field :: fields' =>
      if decide (field = g) then S (occurrences g fields')
      else occurrences g fields'
  end.

(** The listed fields the record has hold values without [undefined]. *)
Definition listed_serializable (fields : list string)
    (record : gmap string value) : Prop :=
  ∀ f x, f ∈ fields → record !! f = Some x → serializable x = true.


(** [timestamps()].  [created] and [updated] are the two readings of the
    clock [beforeCreate] takes, in this order; [touched] is the reading
    [beforeUpdate] takes. *)
Definition timestamps (created updated touched : string)
    : Entity.EntityPlugin := {|
  Entity.name := None;
  Entity.beforeCreate := Some (λ args,
    let item := default VUndef (args !! 0%nat) in
    Return (VObj (spread [item;
                          VObj {[ "createdAt" := VStr created ]};
                          VObj {[ "updatedAt" := VStr updated ]}])));
  Entity.afterCreate := None;
  Entity.beforeGet := None; Entity.afterGet := None;
  Entity.beforeUpdate := Some (λ args,
    let updates := default VUndef (args !! 1%nat) in
    Return (VObj (spread [updates; VObj {[ "updatedAt" := VStr touched ]}])));
  Entity.afterUpdate := None;
  Entity.beforeDelete := None; Entity.afterDelete := None;
  Entity.beforeQuery := None; Entity.afterQuery := None
|}.

End Plugins.

(* ===================================================================== *)
(** ** The behaviour the specification describes *)
(* ===================================================================== *)

(** Reference definitions written after the specification's wording; the
    theorems compare the code above with them. *)
Module Spec.
Import Keys Client.

(** Section 4.3: apply each handler (if present) to a running value, in
    list order; a handler's result replaces the running value unless
    [no_result] holds of it, in which case the prior value passes
    through. *)
Fixpoint pipeline (no_result : value → bool)
    (handlers : list (option (value → completion value)))
    (running : value) : completion value :=
  match handlers with
  | [] => Return running
  | None :: rest => pipeline no_result rest running
  | Some h :: rest =>
      r ← h running;
      pipeline no_result rest (if no_result r then running else r)
  end.

(** Section 4.5 as worded: the entity update whose final write goes
    through the facade's own read-modify-write [update]. *)
Definition update_through_facade_update
    (dodo : Dodo.DodoConfig) (config : Entity.EntityConfig)
    (id : string) (updates : value) : M Store value :=
  current ← Entity.get dodo config id;
  if negb (truthy current) then
    throw (Error (Entity.name_ config +:+ " " +:+ id +:+ " not found"))
  else
    transformed ← lift (Entity.applyPlugins config Entity.BeforeUpdate
                          [VStr id; updates]);
    let merged := VObj (spread [current; transformed]) in
    validated ← lift (Entity.schema_parse config merged);
    key ← lift (fromId (Entity.keys config) id);
    _ ← Dodo.update dodo key validated;
    ret validated.

(** The handlers a plugin list contributes to a phase, in list order.
    An entity hook is called with the running value followed by the
    remaining arguments [rest] of the call. *)
Definition store_handlers (ps : list Dodo.DodoPlugin) (phase : Dodo.Phase)
    : list (option (value → completion value)) :=
  (λ p, Dodo.handler p phase) <$> ps.

Definition entity_handlers (ps : list Entity.EntityPlugin)
    (phase : Entity.Phase) (rest : list value)
    : list (option (value → completion value)) :=
  (λ p, (λ (fn : Entity.Handler) x, fn (x :: rest))
          <$> Entity.handler p phase) <$> ps.

(** No handler of the list ever returns [null]. *)
Definition never_null
    (hs : list (option (value → completion value))) : Prop :=
  ∀ h x, Some h ∈ hs → h x ≠ Return VNull.

End Spec.

(* ===================================================================== *)
(** ** Sample configurations *)
(* ===================================================================== *)

Module Examples.
Import Keys Client.

(** A facade without store-level plugins. *)
Definition dodo0 : Dodo.DodoConfig :=
  {| Dodo.table := "my-users"; Dodo.plugins := None |}.

(** An entity keyed by [keys.single("USER")], with the soft-delete plugin
    and a schema that accepts every value unchanged. *)
Definition User (now : string) : Entity.EntityConfig := {|
  Entity.name_ := "User";
  Entity.schema_parse := λ x, Return x;
  Entity.keys := single "USER";
  Entity.plugins := Some [Plugins.softDelete now]
|}.

(** The same entity without plugins. *)
Definition Plain : Entity.EntityConfig := {|
  Entity.name_ := "User";
  Entity.schema_parse := λ x, Return x;
  Entity.keys := single "USER";
  Entity.plugins := None
|}.

Definition key1 : DodoKey := {| pk := "USER#1"; sk := "USER#META" |}.

Definition deleted_user : gmap string value :=
  <["id" := VStr "1"]> {[ "deleted" := VBool true ]}.

Definition alice : gmap string value :=
  <["id" := VStr "1"]> {[ "name" := VStr "Alice" ]}.

(** The table holding [data] (with its key attributes) at [key1]. *)
Definition stored (data : gmap string value) : Store :=
  {| table :=
       {[ ("USER#1", "USER#META") := own_props (Dodo.of_key key1) ∪ data ]};
     sent := [] |}.

(** A store-level plugin whose [onBeforePut] returns nothing. *)
Definition silent : Dodo.DodoPlugin := {|
  Dodo.name := "silent";
  Dodo.onBeforePut := Some (λ _, Return VUndef);
  Dodo.onAfterGet := None;
  Dodo.onBeforeQuery := None;
  Dodo.onAfterQuery := None;
  Dodo.onBeforeDelete := None
|}.

Definition dodo_silent : Dodo.DodoConfig :=
  {| Dodo.table := "my-users"; Dodo.plugins := Some [silent] |}.

(** Two entity plugins in the manner of section 8 of the specification:
    the first sets [a = 1], the second returns nothing. *)
Definition sets_a : Entity.EntityPlugin := {|
  Entity.name := Some "sets_a";
  Entity.beforeCreate := Some (λ args,
    Return (VObj (<["a" := VNum 1]> (own_props (default VUndef (head args))))));
  Entity.afterCreate := None;
  Entity.beforeGet := None; Entity.afterGet := None;
  Entity.beforeUpdate := None; Entity.afterUpdate := None;
  Entity.beforeDelete := None; Entity.afterDelete := None;
  Entity.beforeQuery := None; Entity.afterQuery := None
|}.

Definition observer : Entity.EntityPlugin := {|
  Entity.name := Some "observer";
  Entity.beforeCreate := Some (λ _, Return VUndef);
  Entity.afterCreate := None;
  Entity.beforeGet := None; Entity.afterGet := None;
  Entity.beforeUpdate := None; Entity.afterUpdate := None;
  Entity.beforeDelete := None; Entity.afterDelete := None;
  Entity.beforeQuery := None; Entity.afterQuery := None
|}.

Definition Thing : Entity.EntityConfig := {|
  Entity.name_ := "Thing";
  Entity.schema_parse := λ x, Return x;
  Entity.keys := single "THING";
  Entity.plugins := Some [sets_a; observer]
|}.

(** A facade whose only plugin encrypts the field [ssn]. *)
Definition dodo_encrypting : Dodo.DodoConfig :=
  {| Dodo.table := "my-users"; Dodo.plugins := Some [Plugins.encryption ["ssn"]] |}.

Definition alice_with_ssn : value :=
  VObj (<["pk" := VStr "USER#1"]>
          (<["sk" := VStr "USER#META"]>
             (<["name" := VStr "Alice"]> {[ "ssn" := VStr "123-45-6789" ]}))).

End Examples.

(* ===================================================================== *)
(** * Theorems *)
(* ===================================================================== *)

(** Unfolding the two monads. *)
Ltac unfold_M :=
  unfold mbind, mret, M_bind, M_ret, completion_bind, completion_ret,
         bind, cbind, ret, throw, lift in *.

(* --------------------------------------------------------------------- *)
(** ** Key transformers *)
(* --------------------------------------------------------------------- *)

Section KeyTransformers.
Import Keys.

Example single_USER_42 :
  toKey (single "USER") (VObj {[ "id" := VStr "42" ]})
  = Return {| pk := "USER#42"; sk := "USER#META" |}.
Proof. reflexivity. Qed.

Example hierarchy_COMMENT_c1 :
  toKey (hierarchy "COMMENT")
    (VObj (<["id" := VStr "c1"]> {[ "parentId" := VStr "post1" ]}))
  = Return {| pk := "COMMENT#post1"; sk := "COMMENT#c1" |}.
Proof. reflexivity. Qed.

(** C8.  Reverse mapping by variant: [fromId] returns a key for the
    single variant and for a custom variant built with a reverse function
    (the key that function computes); it throws "Tenant transformer
    requires tenantId" / "Hierarchy transformer requires parentId" for
    the tenant and hierarchy variants (the specification's
    UnsupportedReverseMapping) and "fromId not implemented" for a custom
    variant built without a reverse function (its NotImplemented). *)
Theorem fromId_by_variant (type id : string)
    (forward : value → DodoKey) (reverse : string → DodoKey) :
  fromId (single type) id
    = Return {| pk := type +:+ "#" +:+ id; sk := type +:+ "#META" |}
  ∧ fromId (custom forward (Some reverse)) id = Return (reverse id)
  ∧ fromId (tenant type) id
    = Throw (Error "Tenant transformer requires tenantId")
  ∧ fromId (hierarchy type) id
    = Throw (Error "Hierarchy transformer requires parentId")
  ∧ fromId (custom forward None) id
    = Throw (Error "fromId not implemented").
Proof. repeat split. Qed.

(** C9.  Forward mapping: for a record whose [id] is the string [id],
    single(t) maps it to (t#id, t#META), which is also what
    single(t).fromId(id) yields; with a string [tenantId], tenant(t) maps
    it to (TENANT#tenantId, t#id); with a string [parentId], hierarchy(t)
    maps it to (t#parentId, t#id). *)
Theorem toKey_shapes (t id : string) (record : gmap string value) :
  record !! "id" = Some (VStr id) →
  toKey (single t) (VObj record)
    = Return {| pk := t +:+ "#" +:+ id; sk := t +:+ "#META" |}
  ∧ fromId (single t) id
    = Return {| pk := t +:+ "#" +:+ id; sk := t +:+ "#META" |}
  ∧ (∀ tenantId, record !! "tenantId" = Some (VStr tenantId) →
      toKey (tenant t) (VObj record)
      = Return {| pk := "TENANT#" +:+ tenantId; sk := t +:+ "#" +:+ id |})
  ∧ (∀ parentId, record !! "parentId" = Some (VStr parentId) →
      toKey (hierarchy t) (VObj record)
      = Return {| pk := t +:+ "#" +:+ parentId; sk := t +:+ "#" +:+ id |}).
Proof.
  intros Hid. repeat split.
  - cbn. by rewrite Hid.
  - intros tenantId Ht. cbn. by rewrite Ht, Hid.
  - intros parentId Hp. cbn. by rewrite Hp, Hid.
Qed.

Lemma toKey_shapes_witness :
  let post : gmap string value :=
    <["id" := VStr "p1"]> {[ "tenantId" := VStr "t1" ]} in
  toKey (single "POST") (VObj post)
    = Return {| pk := "POST#p1"; sk := "POST#META" |}
  ∧ toKey (tenant "POST") (VObj post)
    = Return {| pk := "TENANT#t1"; sk := "POST#p1" |}.
Proof.
  intros post.
  destruct (toKey_shapes "POST" "p1" post eq_refl) as (Hs & _ & Ht & _).
  split; [exact Hs | exact (Ht "t1" eq_refl)].
Defined.

End KeyTransformers.

(* --------------------------------------------------------------------- *)
(** ** The filter expression compiler *)
(* --------------------------------------------------------------------- *)

Section Compiler.
Import Utils.

Lemma FilterExpression_children_ind (P : FilterExpression → Prop) :
  (∀ f, Forall P (children f) → P f) → ∀ f, P f.
Proof.
  intros step. fix IH 1. intros f. apply step.
  destruct f as [a e n x c i an o nt]. unfold children. cbn.
  destruct a as [attr|]; [constructor|].
  destruct an as [fs|].
  { induction fs as [|g fs IHfs]; constructor; [apply IH|exact IHfs]. }
  destruct o as [fs|].
  { induction fs as [|g fs IHfs]; constructor; [apply IH|exact IHfs]. }
  destruct nt as [g|]; repeat constructor. apply IH.
Qed.

Lemma append_inj_r (p s t : string) : p +:+ s = p +:+ t → s = t.
Proof. induction p as [|a p IH]; cbn; [done|]. intros [= ?]. by apply IH. Qed.

Lemma placeholder_inj p (i j : nat) : p +:+ pretty i = p +:+ pretty j → i = j.
Proof. intros H. apply append_inj_r in H. by apply (inj pretty) in H. Qed.

Lemma placeholders_lookup {A} p (l : list A) (i : nat) :
  placeholders p l !! (p +:+ pretty i) = rev l !! i.
Proof.
  induction l as [|x l IH]; [done|]. cbn.
  destruct (decide (i = length l)) as [->|Hne].
  - rewrite lookup_insert_eq.
    rewrite lookup_app_r by (by rewrite length_rev).
    by rewrite length_rev, Nat.sub_diag.
  - rewrite lookup_insert_ne by (intros H; by apply placeholder_inj in H).
    rewrite IH. destruct (decide (i < length l)) as [Hlt|Hge].
    + by rewrite lookup_app_l by (by rewrite length_rev).
    + rewrite !lookup_ge_None_2; [done| |]; rewrite ?length_app, length_rev;
        cbn; lia.
Qed.

Lemma placeholders_size {A} p (l : list A) :
  size (placeholders p l) = length l.
Proof.
  induction l as [|x l IH]; [done|]. cbn.
  rewrite map_size_insert_None; [by rewrite IH|].
  rewrite placeholders_lookup. apply lookup_ge_None_2. by rewrite length_rev.
Qed.


(** *** The allocations of a compilation *)

Lemma operand_holds v c attrs operands :
  holds c attrs operands →
  ∃ c', operand v c = (Return (":v" +:+ pretty (length operands)), c')
        ∧ holds c' attrs (v :: operands).
Proof.
  intros (Hn & Hnc & Hv & Hvc). eexists. split.
  - unfold operand, fresh_value, set_value. unfold_M. cbn. by rewrite Hvc.
  - unfold holds. cbn. by rewrite ?Hn, ?Hnc, ?Hv, ?Hvc.
Qed.

Lemma operands_hold vals c attrs operands :
  holds c attrs operands →
  ∃ keys c', mapM operand vals c = (Return keys, c')
             ∧ holds c' attrs (rev vals ++ operands).
Proof.
  revert c operands. induction vals as [|v vals IH]; intros c operands Hc.
  - by exists [], c.
  - destruct (operand_holds v c attrs operands Hc) as (c1 & Hop & Hc1).
    destruct (IH c1 (v :: operands) Hc1) as (keys & c2 & Hrest & Hc2).
    exists ((":v" +:+ pretty (length operands)) :: keys), c2. split.
    + cbn. unfold bind. rewrite Hop. fold (mapM operand vals).
      by rewrite Hrest.
    + cbn. by rewrite <-app_assoc.
Qed.

Lemma leaf_holds attr c attrs operands :
  holds c attrs operands →
  ∃ c', (nameKey ← fresh_name; _ ← set_name nameKey attr; ret nameKey) c
        = (Return ("#n" +:+ pretty (length attrs)), c')
        ∧ holds c' (attr :: attrs) operands.
Proof.
  intros (Hn & Hnc & Hv & Hvc). eexists. split.
  - unfold fresh_name, set_name. unfold_M. cbn. by rewrite Hnc.
  - unfold holds. cbn. by rewrite ?Hn, ?Hnc, ?Hv, ?Hvc.
Qed.


Lemma mapM_tracked fs :
  Forall tracked fs →
  ∀ c es c' attrs operands,
    mapM buildExpr fs c = (Return es, c') →
    holds c attrs operands →
    holds c' (rev (concat (map leaf_attributes fs)) ++ attrs)
             (rev (concat (map leaf_operands fs)) ++ operands).
Proof.
  induction 1 as [|g fs Hg _ IH]; intros c es c' attrs operands Hrun Hc.
  - cbn in Hrun. unfold ret in Hrun. by simplify_eq.
  - cbn in Hrun. unfold bind in Hrun. fold (mapM buildExpr fs) in Hrun.
    destruct (buildExpr g c) as [[e|?] c1] eqn:Hge; [|done].
    destruct (mapM buildExpr fs c1) as [[es'|?] c2] eqn:Hrest; [|done].
    unfold ret in Hrun. simplify_eq.
    cbn. rewrite !rev_app_distr, <-!app_assoc.
    eapply IH; [exact Hrest|]. eapply Hg; [exact Hge|exact Hc].
Qed.


Lemma buildExpr_leaf attr fe fn fx fc fi an o nt c :
  buildExpr (Filter (Some attr) fe fn fx fc fi an o nt) c
  = let nameKey := "#n" +:+ pretty (nameCounter c) in
    match fe, fn, fx, fc, fi with
    | Some v, _, _, _, _ =>
        (valKey ← operand v; ret (nameKey +:+ " = " +:+ valKey)) (named attr c)
    | None, Some v, _, _, _ =>
        (valKey ← operand v; ret (nameKey +:+ " <> " +:+ valKey)) (named attr c)
    | None, None, Some b, _, _ =>
        (Return (if b then "attribute_exists(" +:+ nameKey +:+ ")"
                 else "attribute_not_exists(" +:+ nameKey +:+ ")"),
         named attr c)
    | None, None, None, Some v, _ =>
        (valKey ← operand v;
         ret ("contains(" +:+ nameKey +:+ ", " +:+ valKey +:+ ")")) (named attr c)
    | None, None, None, None, Some vals =>
        (inValues ← mapM operand vals;
         ret (nameKey +:+ " IN (" +:+ String.concat "," inValues +:+ ")"))
          (named attr c)
    | None, None, None, None, None =>
        (Throw (Error ("Unsupported filter condition on attribute " +:+ attr)),
         named attr c)
    end.
Proof.
  destruct fe, fn, fx, fc, fi; reflexivity.
Qed.

Lemma buildExpr_node fe fn fx fc fi an o nt c :
  buildExpr (Filter None fe fn fx fc fi an o nt) c
  = match an, o, nt with
    | Some fs, _, _ =>
        (es ← mapM buildExpr fs;
         ret ("(" +:+ String.concat " AND " es +:+ ")")) c
    | None, Some fs, _ =>
        (es ← mapM buildExpr fs;
         ret ("(" +:+ String.concat " OR " es +:+ ")")) c
    | None, None, Some g =>
        (e ← buildExpr g; ret ("NOT (" +:+ e +:+ ")")) c
    | None, None, None =>
        (Throw (Error
           "Invalid filter expression: missing attribute, and, or, or not"),
         c)
    end.
Proof.
  destruct an, o, nt; reflexivity.
Qed.

Lemma named_holds attr c attrs operands :
  holds c attrs operands → holds (named attr c) (attr :: attrs) operands.
Proof.
  intros (Hn & Hnc & Hv & Hvc). unfold holds, named. cbn.
  by rewrite Hn, Hnc, Hv, Hvc.
Qed.

Lemma buildExpr_tracked f : tracked f.
Proof.
  induction f as [f IH] using FilterExpression_children_ind.
  intros c e c' attrs operands Hrun Hc.
  destruct f as [a fe fn fx fc fi an o nt]. unfold children in IH. cbn in IH.
  destruct a as [attr|].
  - (* a leaf *)
    rewrite buildExpr_leaf in Hrun. cbv zeta in Hrun.
    pose proof (named_holds attr c attrs operands Hc) as Hc1.
    cbn [leaf_attributes leaf_operands rev app].
    destruct fe as [v|]; [|destruct fn as [v|]; [|destruct fx as [b|];
      [|destruct fc as [v|]; [|destruct fi as [vals|]]]]].
    + destruct (operand_holds v _ _ _ Hc1) as (c2 & Hop & Hc2).
      unfold_M. rewrite Hop in Hrun. by simplify_eq.
    + destruct (operand_holds v _ _ _ Hc1) as (c2 & Hop & Hc2).
      unfold_M. rewrite Hop in Hrun. by simplify_eq.
    + by simplify_eq.
    + destruct (operand_holds v _ _ _ Hc1) as (c2 & Hop & Hc2).
      unfold_M. rewrite Hop in Hrun. by simplify_eq.
    + destruct (operands_hold vals _ _ _ Hc1) as (keys & c2 & Hop & Hc2).
      unfold_M. rewrite Hop in Hrun. by simplify_eq.
    + by simplify_eq.
  - rewrite buildExpr_node in Hrun.
    destruct an as [fs|]; [|destruct o as [fs|]; [|destruct nt as [g|]]].
    + unfold_M.
      destruct (mapM buildExpr fs c) as [[es|?] c1] eqn:Hfs; [|done].
      simplify_eq. by eapply mapM_tracked.
    + unfold_M.
      destruct (mapM buildExpr fs c) as [[es|?] c1] eqn:Hfs; [|done].
      simplify_eq. by eapply mapM_tracked.
    + unfold_M.
      destruct (buildExpr g c) as [[e'|?] c1] eqn:Hg; [|done].
      simplify_eq. apply Forall_cons in IH as [Hg' _]. by eapply Hg'.
    + by simplify_eq.
Qed.

Lemma compiled_tables f r :
  buildFilterExpression f = Return r →
  (∀ i : nat, Compiled.names r !! ("#n" +:+ pretty i) = leaf_attributes f !! i)
  ∧ size (Compiled.names r) = length (leaf_attributes f)
  ∧ (∀ i : nat, Compiled.values r !! (":v" +:+ pretty i) = leaf_operands f !! i)
  ∧ size (Compiled.values r) = length (leaf_operands f).
Proof.
  unfold buildFilterExpression.
  destruct (buildExpr f _) as [[e|?] c'] eqn:Hrun; [|done]. intros [= <-].
  destruct (buildExpr_tracked f _ e c' [] [] Hrun) as (Hn & _ & Hv & _);
    [done|].
  cbn. rewrite Hn, Hv, !app_nil_r. repeat split.
  - intros i. by rewrite placeholders_lookup, rev_involutive.
  - by rewrite placeholders_size, length_rev.
  - intros i. by rewrite placeholders_lookup, rev_involutive.
  - by rewrite placeholders_size, length_rev.
Qed.

(** C7.  The sample predicate compiles to [(#n0 = :v0 AND #n1 <> :v1)]
    with #n0 bound to role, :v0 to admin, #n1 to status and :v1 to
    inactive.  In every compilation that returns, the i-th leaf of the
    traversal owns the name placeholder #n<i> and the i-th operand the
    value placeholder :v<i>; the tables hold one entry per leaf and one
    per operand, so no placeholder is allocated twice. *)
Theorem placeholders_never_collide :
  buildFilterExpression role_and_status
    = Return {| Compiled.expr := "(#n0 = :v0 AND #n1 <> :v1)";
                Compiled.names :=
                  <["#n0" := "role"]> {[ "#n1" := "status" ]};
                Compiled.values :=
                  <[":v0" := VStr "admin"]> {[ ":v1" := VStr "inactive" ]} |}
  ∧ ∀ f r,
      buildFilterExpression f = Return r →
      (∀ i : nat,
         Compiled.names r !! ("#n" +:+ pretty i) = leaf_attributes f !! i)
      ∧ size (Compiled.names r) = length (leaf_attributes f)
      ∧ (∀ i : nat,
           Compiled.values r !! (":v" +:+ pretty i) = leaf_operands f !! i)
      ∧ size (Compiled.values r) = length (leaf_operands f).
Proof.
  split; [vm_compute; reflexivity|]. apply compiled_tables.
Qed.

Lemma placeholders_never_collide_witness :
  ∃ r, buildFilterExpression
         (Or [In "x" [VNum 1; VNum 2]; Not (Exists "y" false)]) = Return r
       ∧ Compiled.names r !! "#n1" = Some "y"
       ∧ Compiled.values r !! ":v1" = Some (VNum 2)
       ∧ size (Compiled.names r) = 2
       ∧ size (Compiled.values r) = 2.
Proof.
  destruct (buildFilterExpression
              (Or [In "x" [VNum 1; VNum 2]; Not (Exists "y" false)]))
    as [r|e] eqn:Hrun; [|vm_compute in Hrun; discriminate Hrun].
  exists r. split; [reflexivity|].
  destruct placeholders_never_collide as [_ Hgen].
  destruct (Hgen _ r Hrun) as (Hn & Hns & Hv & Hvs).
  repeat split.
  - exact (Hn 1).
  - exact (Hv 1).
  - exact Hns.
  - exact Hvs.
Defined.

(** *** Failure *)

Lemma operand_returns v c : ∃ k c', operand v c = (Return k, c').
Proof. by eexists _, _. Qed.

Lemma operands_return vals c : ∃ ks c', mapM operand vals c = (Return ks, c').
Proof.
  revert c. induction vals as [|v vals IH]; intros c; [by eexists _, _|].
  destruct (operand_returns v c) as (k & c1 & Hk).
  destruct (IH c1) as (ks & c2 & Hks).
  exists (k :: ks), c2. cbn. unfold bind. rewrite Hk.
  fold (mapM operand vals). by rewrite Hks.
Qed.

Lemma contains_unrecognized_inv f :
  contains_unrecognized f →
  unrecognized f = true ∨ ∃ g, g ∈ children f ∧ contains_unrecognized g.
Proof. intros [f' H|f' g Hg H]; [by left|right; by exists g]. Qed.


Lemma mapM_decided fs :
  Forall decided fs →
  ∀ c,
    ((∃ g, g ∈ fs ∧ contains_unrecognized g)
     ∧ ∃ e c', mapM buildExpr fs c = (Throw e, c') ∧ InvalidExpression e)
    ∨ ((∀ g, g ∈ fs → ¬ contains_unrecognized g)
       ∧ ∃ es c', mapM buildExpr fs c = (Return es, c')).
Proof.
  induction 1 as [|g fs Hg _ IH]; intros c.
  - right. split; [by intros g ?%elem_of_nil|]. by eexists _, _.
  - cbn. unfold bind. fold (mapM buildExpr fs).
    destruct (Hg c) as [(Hbad & e & c1 & -> & He)|(Hok & e & c1 & ->)].
    { left. split; [exists g; split; [left|done]|]. by eexists _, _. }
    destruct (IH c1) as [((g' & Hin & Hbad) & e' & c2 & -> & He)
                        |(Hoks & es & c2 & ->)].
    { left. split; [exists g'; split; [by right|done]|]. by eexists _, _. }
    right. split; [|by eexists _, _].
    intros g' [->|Hin]%elem_of_cons; [done|by apply Hoks].
Qed.

Lemma buildExpr_decided f : decided f.
Proof.
  induction f as [f IH] using FilterExpression_children_ind. intros c.
  destruct f as [a fe fn fx fc fi an o nt].
  destruct a as [attr|].
  - (* leaves have no children *)
    rewrite buildExpr_leaf. cbv zeta.
    assert (∀ f', f' = Filter (Some attr) fe fn fx fc fi an o nt →
                  unrecognized f' = false → ¬ contains_unrecognized f')
      as Hleaf.
    { intros f' -> Hrec [Hu|(g & Hin & _)]%contains_unrecognized_inv;
        [congruence|]. by apply elem_of_nil in Hin. }
    destruct fe as [v|]; [|destruct fn as [v|]; [|destruct fx as [b|];
      [|destruct fc as [v|]; [|destruct fi as [vals|]]]]].
    + right. split; [by eapply Hleaf|]. unfold_M.
      destruct (operand_returns v (named attr c)) as (k & c1 & ->).
      by eexists _, _.
    + right. split; [by eapply Hleaf|]. unfold_M.
      destruct (operand_returns v (named attr c)) as (k & c1 & ->).
      by eexists _, _.
    + right. split; [by eapply Hleaf|]. by eexists _, _.
    + right. split; [by eapply Hleaf|]. unfold_M.
      destruct (operand_returns v (named attr c)) as (k & c1 & ->).
      by eexists _, _.
    + right. split; [by eapply Hleaf|]. unfold_M.
      destruct (operands_return vals (named attr c)) as (k & c1 & ->).
      by eexists _, _.
    + left. split; [by apply unrecognized_here|].
      eexists _, _. split; [done|]. left. by exists attr.
  - rewrite buildExpr_node. unfold children in IH. cbn in IH.
    assert (∀ f' fs, f' = Filter None fe fn fx fc fi an o nt →
              unrecognized f' = false → children f' = fs →
              (∀ g, g ∈ fs → ¬ contains_unrecognized g) →
              ¬ contains_unrecognized f') as Hnode.
    { intros f' fs -> Hrec Hfs Hoks
        [Hu|(g & Hin & Hbad)]%contains_unrecognized_inv; [congruence|].
      rewrite Hfs in Hin. by eapply Hoks. }
    destruct an as [fs|]; [|destruct o as [fs|]; [|destruct nt as [g|]]].
    + unfold_M.
      destruct (mapM_decided fs IH c)
        as [((g & Hin & Hbad) & e & c1 & -> & He)|(Hoks & es & c1 & ->)].
      * left. split; [by eapply unrecognized_below|]. by eexists _, _.
      * right. split; [by eapply Hnode|]. by eexists _, _.
    + unfold_M.
      destruct (mapM_decided fs IH c)
        as [((g & Hin & Hbad) & e & c1 & -> & He)|(Hoks & es & c1 & ->)].
      * left. split; [by eapply unrecognized_below|]. by eexists _, _.
      * right. split; [by eapply Hnode|]. by eexists _, _.
    + unfold_M. apply Forall_cons in IH as [Hg _].
      destruct (Hg c) as [(Hbad & e & c1 & -> & He)|(Hok & e & c1 & ->)].
      * left. split; [|by eexists _, _].
        eapply unrecognized_below; [|exact Hbad]. cbn. left.
      * right. split; [|by eexists _, _].
        eapply Hnode; [done..|]. by intros g' ->%list_elem_of_singleton.
    + left. split; [by apply unrecognized_here|].
      eexists _, _. split; [done|]. by right.
Qed.

(** C4, as the code has it.  A predicate fails to compile exactly when
    the traversal reaches a node of no recognized shape (a leaf without
    operator, or a node with none of attribute, and, or, not), and then
    with one of the compiler's two errors; every other predicate compiles.
    In particular an AND or OR over an empty child list does not fail: it
    compiles to the empty group [()]. *)
Theorem compile_fails_on_unrecognized_nodes_only :
  (∀ f, contains_unrecognized f →
        ∃ e, buildFilterExpression f = Throw e ∧ InvalidExpression e)
  ∧ (∀ f, ¬ contains_unrecognized f →
          ∃ r, buildFilterExpression f = Return r)
  ∧ buildFilterExpression (And [])
    = Return {| Compiled.expr := "()"; Compiled.names := ∅;
                Compiled.values := ∅ |}
  ∧ buildFilterExpression (Or [])
    = Return {| Compiled.expr := "()"; Compiled.names := ∅;
                Compiled.values := ∅ |}.
Proof.
  split; [|split; [|split; reflexivity]].
  - intros f Hbad. unfold buildFilterExpression.
    destruct (buildExpr_decided f
                {| values := ∅; names := ∅; valueCounter := 0;
                   nameCounter := 0 |})
      as [(_ & e & c' & -> & He)|(Hok & _)]; [|done]. by exists e.
  - intros f Hok. unfold buildFilterExpression.
    destruct (buildExpr_decided f
                {| values := ∅; names := ∅; valueCounter := 0;
                   nameCounter := 0 |})
      as [(Hbad & _)|(_ & e & c' & ->)]; [done|]. by eexists.
Qed.

Lemma compile_fails_on_unrecognized_nodes_only_witness :
  (∃ e, buildFilterExpression
          (And [Eq "role" (VStr "admin");
                Not (Filter (Some "status") None None None None None
                       None None None)]) = Throw e
        ∧ InvalidExpression e)
  ∧ ∃ r, buildFilterExpression (Not (Exists "status" true)) = Return r.
Proof.
  destruct compile_fails_on_unrecognized_nodes_only as (Hfail & Hok & _).
  split.
  - apply Hfail.
    eapply unrecognized_below; [cbn; right; left|].
    eapply unrecognized_below; [cbn; left|].
    by apply unrecognized_here.
  - apply Hok.
    intros [Hu|(g & Hin & Hbad)]%contains_unrecognized_inv; [done|].
    apply list_elem_of_singleton in Hin as ->.
    apply contains_unrecognized_inv in Hbad as [Hu|(g & Hin & _)]; [done|].
    by apply elem_of_nil in Hin.
Defined.

Example object_without_keys :
  buildFilterExpression no_keys
  = Throw (Error
      "Invalid filter expression: missing attribute, and, or, or not").
Proof. reflexivity. Qed.

Example leaf_without_operator :
  buildFilterExpression
    (Filter (Some "status") None None None None None None None None)
  = Throw (Error "Unsupported filter condition on attribute status").
Proof. reflexivity. Qed.

(** C4 as stated fails for empty combinators: the compiler emits an empty
    group instead of failing. *)
Lemma empty_combinator_compiles :
  buildFilterExpression (And [])
    = Return {| Compiled.expr := "()"; Compiled.names := ∅;
                Compiled.values := ∅ |}
  ∧ (∀ e, buildFilterExpression (And []) ≠ Throw e)
  ∧ buildFilterExpression (Or [Eq "a" (VNum 1); And []])
    = Return {| Compiled.expr := "(#n0 = :v0 OR ())";
                Compiled.names := {[ "#n0" := "a" ]};
                Compiled.values := {[ ":v0" := VNum 1 ]} |}.
Proof. split; [reflexivity|]. split; [done|]. vm_compute. reflexivity. Qed.

End Compiler.

(* --------------------------------------------------------------------- *)
(** ** The plugin pipelines *)
(* --------------------------------------------------------------------- *)

Section Pipelines.
Import Examples.

Lemma store_pipeline_replaces config phase data :
  Dodo.applyPlugins config phase data
  = Spec.pipeline (λ _, false)
      (Spec.store_handlers (Dodo.the_plugins config) phase) data.
Proof.
  unfold Dodo.applyPlugins.
  generalize (Dodo.the_plugins config) as ps. intros ps. revert data.
  induction ps as [|p ps IH]; intros data; [done|].
  cbn. destruct (Dodo.handler p phase) as [fn|]; cbn; [|apply IH].
  destruct (fn data) as [r|e]; cbn; [apply IH|done].
Qed.

Lemma entity_pipeline_passes config phase first rest :
  Spec.never_null
    (Spec.entity_handlers (Entity.the_plugins config) phase rest) →
  Entity.applyPlugins config phase (first :: rest)
  = Spec.pipeline is_undef
      (Spec.entity_handlers (Entity.the_plugins config) phase rest) first.
Proof.
  unfold Entity.applyPlugins. cbn [head tail default].
  generalize (Entity.the_plugins config) as ps. intros ps. revert first.
  induction ps as [|p ps IH]; intros first Hnn; [done|].
  cbn. destruct (Entity.handler p phase) as [fn|] eqn:Hfn; cbn.
  - destruct (fn (first :: rest)) as [r|e] eqn:Hr; cbn; [|done].
    assert (r ≠ VNull) as Hr'.
    { intros ->. eapply (Hnn (λ x, fn (x :: rest)) first); [|exact Hr].
      cbn. rewrite Hfn. cbn. left. }
    replace (coalesce r first) with (if is_undef r then first else r)
      by (by destruct r).
    apply IH. intros h x Hin. apply Hnn. cbn. by right.
  - apply IH. intros h x Hin. apply Hnn. cbn. by right.
Qed.

(** C2, as the code has it.  Both pipelines invoke the handlers of the
    phase that are present, in list order, on a running value.  At store
    level every result replaces the running value, an undefined one
    included.  At entity level a result replaces the running value and an
    undefined result leaves it unchanged (stated for handlers that do not
    return null). *)
Theorem pipelines_run_in_list_order
    (store : Dodo.DodoConfig) (phase : Dodo.Phase) (data : value)
    (entity : Entity.EntityConfig) (ephase : Entity.Phase)
    (first : value) (rest : list value) :
  Spec.never_null
    (Spec.entity_handlers (Entity.the_plugins entity) ephase rest) →
  Dodo.applyPlugins store phase data
    = Spec.pipeline (λ _, false)
        (Spec.store_handlers (Dodo.the_plugins store) phase) data
  ∧ Entity.applyPlugins entity ephase (first :: rest)
    = Spec.pipeline is_undef
        (Spec.entity_handlers (Entity.the_plugins entity) ephase rest) first.
Proof.
  intros Hnn. split.
  - apply store_pipeline_replaces.
  - by apply entity_pipeline_passes.
Qed.

Lemma pipelines_run_in_list_order_witness :
  Dodo.applyPlugins dodo_silent Dodo.OnBeforePut (VObj ∅)
    = Spec.pipeline (λ _, false)
        (Spec.store_handlers [silent] Dodo.OnBeforePut) (VObj ∅)
  ∧ Entity.applyPlugins Thing Entity.BeforeCreate [VObj ∅]
    = Spec.pipeline is_undef
        (Spec.entity_handlers [sets_a; observer] Entity.BeforeCreate [])
        (VObj ∅).
Proof.
  apply (pipelines_run_in_list_order dodo_silent Dodo.OnBeforePut (VObj ∅)
           Thing Entity.BeforeCreate (VObj ∅) []).
  intros h x Hin. cbn in Hin.
  apply elem_of_cons in Hin as [[= ->]|Hin]; [discriminate|].
  apply elem_of_cons in Hin as [[= ->]|Hin]; [discriminate|].
  by apply elem_of_nil in Hin.
Defined.

Example observer_sees_a :
  Entity.applyPlugins Thing Entity.BeforeCreate [VObj ∅]
  = Return (VObj {[ "a" := VNum 1 ]}).
Proof. vm_compute. reflexivity. Qed.

(** C2 as stated fails at store level: a handler that returns nothing
    makes the running value undefined instead of passing the prior value
    through. *)
Lemma store_pipeline_no_passthrough :
  Dodo.applyPlugins dodo_silent Dodo.OnBeforePut (VStr "x") = Return VUndef
  ∧ Spec.pipeline is_undef
      (Spec.store_handlers (Dodo.the_plugins dodo_silent) Dodo.OnBeforePut)
      (VStr "x") = Return (VStr "x")
  ∧ Dodo.applyPlugins dodo_silent Dodo.OnBeforePut (VStr "x")
    ≠ Spec.pipeline is_undef
        (Spec.store_handlers (Dodo.the_plugins dodo_silent) Dodo.OnBeforePut)
        (VStr "x").
Proof. repeat split. discriminate. Qed.

End Pipelines.

(* --------------------------------------------------------------------- *)
(** ** The store facade *)
(* --------------------------------------------------------------------- *)

Section Facade.
Import Keys Client Examples.

Lemma get_absent config key s :
  table s !! (pk key, sk key) = None →
  Dodo.get config key s = (Return VNull, log (GetCommand key) s).
Proof.
  intros Hnone. unfold Dodo.get, send_get. unfold_M. by rewrite Hnone.
Qed.

Lemma get_present config key s item :
  table s !! (pk key, sk key) = Some item →
  Dodo.get config key s
  = (Dodo.applyPlugins config Dodo.OnAfterGet (VObj item),
     log (GetCommand key) s).
Proof.
  intros Hsome. unfold Dodo.get, send_get. unfold_M. by rewrite Hsome.
Qed.

(** C5.  Where no record exists at the key, the facade's update throws
    "Item not found: pk/sk" (the specification's NotFound); the table is
    unchanged and the only command sent is the read. *)
Theorem update_absent_fails_without_write config key updates s :
  table s !! (pk key, sk key) = None →
  Dodo.update config key updates s
  = (Throw (Error ("Item not found: " +:+ pk key +:+ "/" +:+ sk key)),
     {| table := table s; sent := sent s ++ [GetCommand key] |}).
Proof.
  intros Hnone. unfold Dodo.update. unfold_M.
  pose proof (get_absent config key s Hnone) as Hget. unfold_M.
  by rewrite Hget.
Qed.

Lemma update_absent_fails_without_write_witness :
  Dodo.update dodo0 key1 (VObj {[ "name" := VStr "Bob" ]})
    {| table := ∅; sent := [] |}
  = (Throw (Error "Item not found: USER#1/USER#META"),
     {| table := ∅; sent := [GetCommand key1] |}).
Proof.
  apply (update_absent_fails_without_write dodo0 key1
           (VObj {[ "name" := VStr "Bob" ]}) {| table := ∅; sent := [] |}).
  reflexivity.
Defined.

Lemma spread_pair (a b : value) : spread [a; b] = own_props b ∪ own_props a.
Proof. unfold spread. cbn. by rewrite (right_id_L ∅ (∪)). Qed.

Lemma spread_with_key (a : value) key :
  spread [a; Dodo.of_key key]
  = <["pk" := VStr (pk key)]> (<["sk" := VStr (sk key)]> (own_props a)).
Proof.
  rewrite spread_pair. unfold Dodo.of_key. cbn.
  rewrite <-!insert_union_l. by rewrite (left_id_L ∅ (∪)).
Qed.

Lemma spread_update existing updates key :
  spread [existing; updates; Dodo.of_key key]
  = <["pk" := VStr (pk key)]>
      (<["sk" := VStr (sk key)]> (own_props updates ∪ own_props existing)).
Proof.
  unfold spread, Dodo.of_key. cbn.
  rewrite (right_id_L ∅ (∪)).
  rewrite <-!insert_union_l. by rewrite (left_id_L ∅ (∪)).
Qed.

Lemma marshall_VObj m : marshall (VObj m) = VObj (omap storable m).
Proof. done. Qed.

Lemma primary_key_reasserted key (m : gmap string value) :
  primary_key
    (omap storable (<["pk" := VStr (pk key)]> (<["sk" := VStr (sk key)]> m)))
  = Some (pk key, sk key).
Proof.
  unfold primary_key. rewrite !lookup_omap.
  rewrite lookup_insert_eq. rewrite lookup_insert_ne by done.
  by rewrite lookup_insert_eq.
Qed.

Lemma applyPlugins_no_plugins config phase data :
  Dodo.the_plugins config = [] →
  Dodo.applyPlugins config phase data = Return data.
Proof. unfold Dodo.applyPlugins. by intros ->. Qed.

(** C6.  Where a record exists at the key and the facade's read returns
    it as [existing], update puts the shallow merge of [updates] over
    [existing] with [pk] and [sk] set from the key argument: in the merge
    an updated field wins over the existing one.  Without store plugins
    the merged record (less its undefined members) is what the table
    holds at the key afterwards, after one read and one write. *)
Theorem update_puts_merge config key updates s item existing :
  table s !! (pk key, sk key) = Some item →
  Dodo.applyPlugins config Dodo.OnAfterGet (VObj item) = Return existing →
  truthy existing = true →
  let merged : gmap string value :=
    <["pk" := VStr (pk key)]>
      (<["sk" := VStr (sk key)]> (own_props updates ∪ own_props existing)) in
  Dodo.update config key updates s
    = Dodo.put config (VObj merged) (log (GetCommand key) s)
  ∧ (∀ f, merged !! f =
       if decide (f = "pk") then Some (VStr (pk key))
       else if decide (f = "sk") then Some (VStr (sk key))
       else match own_props updates !! f with
            | Some u => Some u
            | None => own_props existing !! f
            end)
  ∧ (Dodo.the_plugins config = [] →
     Dodo.update config key updates s
     = (Return (),
        {| table := <[(pk key, sk key) := omap storable merged]> (table s);
           sent := sent s ++ [GetCommand key; PutCommand (VObj merged)] |})).
Proof.
  intros Hitem Hafter Htruthy merged.
  assert (Dodo.update config key updates s
          = Dodo.put config (VObj merged) (log (GetCommand key) s)) as Hupd.
  { unfold Dodo.update. unfold_M.
    pose proof (get_present config key s item Hitem) as Hget.
    rewrite Hafter in Hget. rewrite Hget. cbv beta iota.
    rewrite Htruthy. cbn [negb]. by rewrite spread_update. }
  split; [exact Hupd|]. split.
  - intros f. subst merged.
    destruct (decide (f = "pk")) as [->|Hpk]; [by rewrite lookup_insert_eq|].
    rewrite lookup_insert_ne by done.
    destruct (decide (f = "sk")) as [->|Hsk]; [by rewrite lookup_insert_eq|].
    rewrite lookup_insert_ne by done.
    rewrite lookup_union.
    destruct (own_props updates !! f), (own_props existing !! f); done.
  - intros Hnone. rewrite Hupd. unfold Dodo.put, send_put. unfold_M.
    rewrite (applyPlugins_no_plugins _ _ _ Hnone).
    rewrite marshall_VObj. subst merged.
    rewrite primary_key_reasserted. cbn. by rewrite <-app_assoc.
Qed.

Lemma update_puts_merge_witness :
  let bob : gmap string value :=
    <["pk" := VStr "USER#1"]>
      (<["sk" := VStr "USER#META"]>
         (<["id" := VStr "1"]> {[ "name" := VStr "Bob" ]})) in
  Dodo.update dodo0 key1 (VObj {[ "name" := VStr "Bob" ]}) (stored alice)
  = (Return (),
     {| table := {[ ("USER#1", "USER#META") := bob ]};
        sent := [GetCommand key1; PutCommand (VObj bob)] |}).
Proof.
  intros bob.
  destruct (update_puts_merge dodo0 key1 (VObj {[ "name" := VStr "Bob" ]})
              (stored alice) (own_props (Dodo.of_key key1) ∪ alice)
              (VObj (own_props (Dodo.of_key key1) ∪ alice))
              eq_refl eq_refl eq_refl) as (_ & _ & Hstate).
  rewrite (Hstate eq_refl). vm_compute. reflexivity.
Defined.

End Facade.

(* --------------------------------------------------------------------- *)
(** ** The entity layer *)
(* --------------------------------------------------------------------- *)

Section EntityLayer.
Import Keys Client Examples.

Lemma coalesce_keeps r v : nullish v = false → nullish (coalesce r v) = false.
Proof. unfold coalesce. by destruct (nullish r) eqn:?. Qed.

(** No hook can turn a running value into [null] or [undefined]. *)
Lemma hooks_cannot_filter config phase first rest r :
  nullish first = false →
  Entity.applyPlugins config phase (first :: rest) = Return r →
  nullish r = false.
Proof.
  unfold Entity.applyPlugins. cbn [head tail default].
  generalize (Entity.the_plugins config) as ps. intros ps. revert first.
  induction ps as [|p ps IH]; intros first Hfirst; cbn.
  - by intros [= <-].
  - destruct (Entity.handler p phase) as [fn|]; [|by apply IH].
    cbn. destruct (fn (first :: rest)) as [t|e]; cbn; [|done].
    apply IH. by apply coalesce_keeps.
Qed.

(** C3, evaluated on the code.  The soft-delete hook answers [null] for a
    record with [deleted = true], the record is in the table, and the
    entity's get nevertheless returns the record instead of [null]: the
    pipeline's [transformed ?? value] discards the hook's [null]. *)
Theorem soft_deleted_record_is_returned (now : string) :
  (∃ hook, Entity.afterGet (Plugins.softDelete now) = Some hook
           ∧ hook [VObj deleted_user] = Return VNull)
  ∧ table (stored deleted_user) !! ("USER#1", "USER#META")
    = Some (own_props (Dodo.of_key key1) ∪ deleted_user)
  ∧ fst (Entity.get dodo0 (User now) "1" (stored deleted_user))
    = Return (VObj deleted_user).
Proof.
  split; [|split].
  - eexists. split; [reflexivity|]. vm_compute. reflexivity.
  - vm_compute. reflexivity.
  - vm_compute. reflexivity.
Qed.

Lemma entity_get_absent dodo config id key s :
  fromId (Entity.keys config) id = Return key →
  table s !! (pk key, sk key) = None →
  Entity.get dodo config id s = (Return VNull, log (GetCommand key) s).
Proof.
  intros Hkey Hnone. unfold Entity.get. unfold_M. rewrite Hkey.
  pose proof (get_absent dodo key s Hnone) as Hget. unfold_M.
  by rewrite Hget.
Qed.

Lemma entity_get_present dodo config id key s item raw validated shown :
  fromId (Entity.keys config) id = Return key →
  table s !! (pk key, sk key) = Some item →
  Dodo.applyPlugins dodo Dodo.OnAfterGet (VObj item) = Return raw →
  truthy raw = true →
  Entity.schema_parse config (Entity.strip_key raw) = Return validated →
  Entity.applyPlugins config Entity.AfterGet [validated] = Return shown →
  Entity.get dodo config id s
  = (Return (if is_undef shown then VNull else shown),
     log (GetCommand key) s).
Proof.
  intros Hkey Hitem Hraw Htruthy Hparse Hshown.
  unfold Entity.get. unfold_M. rewrite Hkey.
  pose proof (get_present dodo key s item Hitem) as Hget. unfold_M.
  rewrite Hraw in Hget. rewrite Hget. cbv beta iota.
  rewrite Htruthy. cbn [negb]. by rewrite Hparse, Hshown.
Qed.

(** C1, as the code has it.  With [key] the reverse-mapped key of [id]:
    update first gets the current value (one read; the record stripped of
    its key fields, validated and passed through the after-get hooks);
    when there is no record it throws "<name> <id> not found" without
    writing; otherwise it runs the before-update pipeline on the call's
    arguments [id, updates], shallow-merges the pipeline's output over
    the current value, validates the merge, and hands the validated
    record with [pk]/[sk] of the key to the facade's put: one
    unconditional write, no second read and no second merge. *)
Theorem entity_update_steps dodo config id updates s key :
  fromId (Entity.keys config) id = Return key →
  (table s !! (pk key, sk key) = None →
   Entity.update dodo config id updates s
   = (Throw (Error (Entity.name_ config +:+ " " +:+ id +:+ " not found")),
      {| table := table s; sent := sent s ++ [GetCommand key] |}))
  ∧ (∀ item raw validated shown,
      table s !! (pk key, sk key) = Some item →
      Dodo.applyPlugins dodo Dodo.OnAfterGet (VObj item) = Return raw →
      truthy raw = true →
      Entity.schema_parse config (Entity.strip_key raw) = Return validated →
      Entity.applyPlugins config Entity.AfterGet [validated] = Return shown →
      Entity.get dodo config id s
      = (Return (if is_undef shown then VNull else shown),
         {| table := table s; sent := sent s ++ [GetCommand key] |}))
  ∧ (∀ current s1 transformed validated out attrs k,
      Entity.get dodo config id s = (Return current, s1) →
      truthy current = true →
      Entity.applyPlugins config Entity.BeforeUpdate [VStr id; updates]
        = Return transformed →
      Entity.schema_parse config
        (VObj (own_props transformed ∪ own_props current)) = Return validated →
      Dodo.applyPlugins dodo Dodo.OnBeforePut
        (VObj (<["pk" := VStr (pk key)]>
                 (<["sk" := VStr (sk key)]> (own_props validated))))
        = Return out →
      marshall out = VObj attrs →
      primary_key attrs = Some k →
      Entity.update dodo config id updates s
      = (Return validated,
         {| table := <[k := attrs]> (table s1);
            sent := sent s1 ++ [PutCommand out] |})).
Proof.
  intros Hkey. split; [|split].
  - intros Hnone. unfold Entity.update. unfold_M.
    pose proof (entity_get_absent dodo config id key s Hkey Hnone) as Hget.
    unfold_M. by rewrite Hget.
  - intros item raw validated shown. by apply entity_get_present.
  - intros current s1 transformed validated out attrs k
      Hget Htruthy Hbefore Hparse Hput Hmarshall Hpk.
    unfold Entity.update. unfold_M. rewrite Hget. cbv beta iota.
    rewrite Htruthy. cbn [negb]. rewrite Hbefore. cbv beta iota.
    rewrite spread_pair, Hparse, Hkey. cbv beta iota.
    unfold Dodo.put, send_put. unfold_M.
    rewrite spread_with_key, Hput. cbv beta iota.
    by rewrite Hmarshall, Hpk.
Qed.

Lemma entity_update_steps_witness :
  let updates := VObj {[ "name" := VStr "Bob" ]} in
  let bob : gmap string value :=
    <["id" := VStr "1"]> {[ "name" := VStr "Bob" ]} in
  let written : gmap string value := own_props (Dodo.of_key key1) ∪ bob in
  Entity.update dodo0 (User "t") "1" updates (stored alice)
  = (Return (VObj bob),
     {| table := <[("USER#1", "USER#META") := written]> (table (stored alice));
        sent := [GetCommand key1; PutCommand (VObj written)] |}).
Proof.
  intros updates bob written.
  destruct (entity_update_steps dodo0 (User "t") "1" updates (stored alice)
              key1 eq_refl) as (_ & _ & Hsteps).
  apply (Hsteps (VObj alice) (log (GetCommand key1) (stored alice))
           updates (VObj bob) (VObj written) written ("USER#1", "USER#META"));
    vm_compute; reflexivity.
Defined.

(** C1 as stated fails: the write does not go through the facade's
    update, so the record is read once, not twice. *)
Lemma entity_update_does_not_refetch :
  let updates := VObj {[ "name" := VStr "Bob" ]} in
  let bob : gmap string value :=
    own_props (Dodo.of_key key1)
    ∪ (<["id" := VStr "1"]> {[ "name" := VStr "Bob" ]}) in
  sent (snd (Entity.update dodo0 (User "t") "1" updates (stored alice)))
    = [GetCommand key1; PutCommand (VObj bob)]
  ∧ sent (snd (Spec.update_through_facade_update dodo0 (User "t") "1" updates
                 (stored alice)))
    = [GetCommand key1; GetCommand key1; PutCommand (VObj bob)]
  ∧ Entity.update dodo0 (User "t") "1" updates (stored alice)
    ≠ Spec.update_through_facade_update dodo0 (User "t") "1" updates
        (stored alice).
Proof.
  intros updates bob.
  assert (sent (snd (Entity.update dodo0 (User "t") "1" updates (stored alice)))
          = [GetCommand key1; PutCommand (VObj bob)]) as H1
    by (vm_compute; reflexivity).
  assert (sent (snd (Spec.update_through_facade_update dodo0 (User "t") "1"
                       updates (stored alice)))
          = [GetCommand key1; GetCommand key1; PutCommand (VObj bob)]) as H2
    by (vm_compute; reflexivity).
  split; [exact H1|]. split; [exact H2|].
  intros Heq. rewrite Heq, H2 in H1. discriminate H1.
Qed.

(** Without a before-update hook the pipeline returns its initial running
    value, the id: the characters of the id are merged over the current
    record and the updates are not applied. *)
Example update_without_hooks :
  fst (Entity.update dodo0 Plain "1" (VObj {[ "name" := VStr "Bob" ]})
         (stored alice))
  = Return (VObj (<["0" := VStr "1"]> alice)).
Proof. vm_compute. reflexivity. Qed.

(** An existing record with a validated value is never reported absent,
    whatever the after-get hooks return. *)
Corollary get_never_filters dodo config id key s item raw validated shown :
  fromId (Entity.keys config) id = Return key →
  table s !! (pk key, sk key) = Some item →
  Dodo.applyPlugins dodo Dodo.OnAfterGet (VObj item) = Return raw →
  truthy raw = true →
  Entity.schema_parse config (Entity.strip_key raw) = Return validated →
  nullish validated = false →
  Entity.applyPlugins config Entity.AfterGet [validated] = Return shown →
  fst (Entity.get dodo config id s) = Return shown ∧ shown ≠ VNull.
Proof.
  intros Hkey Hitem Hraw Htruthy Hparse Hvalid Hshown.
  pose proof (hooks_cannot_filter _ _ _ _ _ Hvalid Hshown) as Hnot.
  rewrite (entity_get_present _ _ _ _ _ _ _ _ _ Hkey Hitem Hraw Htruthy
             Hparse Hshown).
  destruct shown; try done.
Qed.

End EntityLayer.

(* --------------------------------------------------------------------- *)
(** ** base64 *)
(* --------------------------------------------------------------------- *)

Section Base64.
Import Platform.

#[local] Ltac Zify.zify_post_hook ::= Z.to_euclidean_division_equations.

Lemma unbase64_base64_char (n : N) :
  (n < 64)%N → unbase64 (base64_char n) = Some n ∧ base64_char n ≠ "="%char.
Proof.
  intros Hn.
  assert (Forall (λ n, unbase64 (base64_char n) = Some n
                       ∧ base64_char n ≠ "="%char)
            (N.of_nat <$> seq 0 64)) as Hall.
  { vm_compute. repeat (constructor; [split; [reflexivity|discriminate]|]).
    constructor. }
  rewrite Forall_forall in Hall. apply Hall.
  apply list_elem_of_fmap. exists (N.to_nat n). split; [lia|].
  apply elem_of_seq. lia.
Qed.

Lemma byte_bounded a : (byte a < 256)%N.
Proof. apply N_ascii_bounded. Qed.

Lemma char_byte a n : n = byte a → char n = a.
Proof.
  intros ->. unfold char, byte.
  rewrite N.mod_small by apply N_ascii_bounded. apply ascii_N_embedding.
Qed.

Lemma sextets_cons n s :
  (n < 64)%N → sextets (String (base64_char n) s) = n :: sextets s.
Proof.
  intros Hn. destruct (unbase64_base64_char n Hn) as [Hu Hne].
  change (sextets (String (base64_char n) s))
    with (if Ascii.eqb (base64_char n) "=" then []
          else match unbase64 (base64_char n) with
               | Some m => m :: sextets s
               | None => sextets s
               end).
  rewrite Hu. by destruct (Ascii.eqb_spec (base64_char n) "=").
Qed.

Lemma base64_roundtrip_ind (P : string → Prop) :
  P "" → (∀ a, P (String a "")) → (∀ a b, P (String a (String b ""))) →
  (∀ a b c s, P s → P (String a (String b (String c s)))) →
  ∀ s, P s.
Proof.
  intros H0 H1 H2 H3. fix IH 1.
  intros [|a [|b [|c s]]]; [exact H0|apply H1|apply H2|apply H3, IH].
Qed.

Theorem base64_decode_encode (bytes : string) :
  base64_decode (base64_encode bytes) = bytes.
Proof.
  unfold base64_decode.
  induction bytes as [|a|a b|a b c s IH] using base64_roundtrip_ind.
  - done.
  - pose proof (byte_bounded a). cbn [base64_encode].
    rewrite !sextets_cons by lia. cbn [sextets Ascii.eqb Bool.eqb bytes_of_sextets].
    f_equal. apply char_byte. lia.
  - pose proof (byte_bounded a). pose proof (byte_bounded b).
    cbn [base64_encode].
    rewrite !sextets_cons by lia. cbn [sextets Ascii.eqb Bool.eqb bytes_of_sextets].
    f_equal; [apply char_byte; lia|]. f_equal. apply char_byte. lia.
  - pose proof (byte_bounded a). pose proof (byte_bounded b).
    pose proof (byte_bounded c).
    cbn [base64_encode].
    rewrite !sextets_cons by lia. cbn [bytes_of_sextets]. rewrite IH.
    f_equal; [apply char_byte; lia|].
    f_equal; [apply char_byte; lia|].
    f_equal. apply char_byte. lia.
Qed.

End Base64.

(* --------------------------------------------------------------------- *)
(** ** JSON: strings *)
(* --------------------------------------------------------------------- *)

Section Strings.
Import Platform.

Lemma string_app_cons x (a b : string) : String x a +:+ b = String x (a +:+ b).
Proof. reflexivity. Qed.

Lemma string_app_nil_l (a : string) : "" +:+ a = a.
Proof. reflexivity. Qed.

Lemma string_app_assoc (a b c : string) : (a +:+ b) +:+ c = a +:+ (b +:+ c).
Proof.
  induction a as [|x a IH]; [done|]. rewrite !string_app_cons. by f_equal.
Qed.

Lemma string_app_nil_r (a : string) : a +:+ "" = a.
Proof.
  induction a as [|x a IH]; [done|]. rewrite string_app_cons. by f_equal.
Qed.

Lemma string_length_app (a b : string) :
  String.length (a +:+ b) = String.length a + String.length b.
Proof.
  induction a as [|x a IH]; [done|]. rewrite string_app_cons. cbn. by f_equal.
Qed.

Lemma parse_chars_escape_char c tl :
  parse_chars (escape_char c +:+ tl)
  = '(str, rest) ← parse_chars tl; Some (String c str, rest).
Proof.
  destruct c as [[] [] [] [] [] [] [] []]; reflexivity.
Qed.

Lemma parse_chars_escape s rest :
  parse_chars (escape s +:+ String dquote rest) = Some (s, rest).
Proof.
  induction s as [|c s IH]; [done|].
  cbn [escape]. rewrite string_app_assoc, parse_chars_escape_char.
  by rewrite IH.
Qed.

Lemma parse_chars_quote s rest :
  ∃ t, quote s +:+ rest = String dquote t ∧ parse_chars t = Some (s, rest).
Proof.
  exists (escape s +:+ String dquote rest). split; [|apply parse_chars_escape].
  unfold quote. by rewrite string_app_cons, string_app_assoc.
Qed.

End Strings.

(* --------------------------------------------------------------------- *)
(** ** JSON: numbers *)
(* --------------------------------------------------------------------- *)

Section Numbers.
Import Platform.

#[local] Ltac Zify.zify_post_hook ::= Z.to_euclidean_division_equations.

Lemma digit_value_pretty_N_char d :
  (d < 10)%N → digit_value (pretty_N_char d) = Some d.
Proof.
  intros Hd.
  assert (d = 0 ∨ d = 1 ∨ d = 2 ∨ d = 3 ∨ d = 4 ∨ d = 5 ∨ d = 6 ∨ d = 7
          ∨ d = 8 ∨ d = 9)%N as Hcases by lia.
  repeat (destruct Hcases as [->|Hcases]; [reflexivity|]). by subst.
Qed.

Lemma digits_cons c d acc s :
  digit_value c = Some d → digits acc (String c s) = digits (acc * 10 + d) s.
Proof. intros H. cbn. by rewrite H. Qed.

Lemma digits_stop acc rest :
  starts_with is_digit rest = false → digits acc rest = (acc, rest).
Proof.
  destruct rest as [|c rest]; [done|]. cbn. unfold is_digit.
  destruct (digit_value c); [|done]. intros H.
  apply bool_decide_eq_false in H. destruct H. by eexists.
Qed.

Lemma pretty_digits x :
  (0 < x)%N →
  ∃ f : N → N, f 0%N = x
    ∧ ∀ s acc t, digits acc (pretty_N_go x s +:+ t) = digits (f acc) (s +:+ t).
Proof.
  induction (N.lt_wf_0 x) as [x _ IH]. intros Hx.
  assert (x `div` 10 = 0 ∨ 0 < x `div` 10)%N as [Hq|Hq] by lia.
  - exists (λ acc, acc * 10 + x `mod` 10)%N. split.
    + pose proof (N.div_mod x 10). lia.
    + intros s acc t. rewrite pretty_N_go_step by done.
      rewrite Hq, pretty_N_go_0, string_app_cons.
      apply digits_cons, digit_value_pretty_N_char. by apply N.mod_lt.
  - destruct (IH (x `div` 10)%N) as (f & Hf0 & Hf); [lia|done|].
    exists (λ acc, f acc * 10 + x `mod` 10)%N. split.
    + rewrite Hf0. pose proof (N.div_mod x 10). lia.
    + intros s acc t. rewrite pretty_N_go_step by done.
      rewrite Hf, string_app_cons.
      apply digits_cons, digit_value_pretty_N_char. by apply N.mod_lt.
Qed.

Lemma pretty_head x s :
  (0 < x)%N →
  ∃ c t d, pretty_N_go x s = String c t ∧ digit_value c = Some d ∧ d ≠ 0%N.
Proof.
  revert s. induction (N.lt_wf_0 x) as [x _ IH]. intros s Hx.
  rewrite pretty_N_go_step by done.
  assert (x `div` 10 = 0 ∨ 0 < x `div` 10)%N as [Hq|Hq] by lia.
  - rewrite Hq, pretty_N_go_0. eexists _, _, (x `mod` 10)%N.
    split; [done|]. split.
    + apply digit_value_pretty_N_char. by apply N.mod_lt.
    + pose proof (N.div_mod x 10). lia.
  - apply IH; lia.
Qed.

Lemma parse_nat_pretty (x : N) rest :
  starts_with is_digit rest = false →
  parse_nat (pretty x +:+ rest) = Some (x, rest).
Proof.
  intros Hrest. unfold pretty, pretty_N.
  destruct (decide (x = 0%N)) as [->|Hx].
  - rewrite string_app_cons, string_app_nil_l. unfold parse_nat.
    change (digit_value "0") with (Some 0%N). cbn [mbind option_bind].
    rewrite Hrest. cbn [andb N.eqb].
    rewrite (digits_cons "0" 0%N) by done. by rewrite digits_stop.
  - assert (0 < x)%N as Hpos by lia.
    destruct (pretty_head x "" Hpos) as (c & t & d & Hhead & Hc & Hd).
    destruct (pretty_digits x Hpos) as (f & Hf0 & Hf).
    pose proof (Hf "" 0%N rest) as Hdigits.
    rewrite Hhead, string_app_cons in *.
    unfold parse_nat. rewrite Hc. cbn [mbind option_bind].
    apply N.eqb_neq in Hd. rewrite Hd. cbn [andb].
    rewrite Hdigits, Hf0, string_app_nil_l. by rewrite digits_stop.
Qed.

Lemma delimited_not_digit rest :
  delimited rest = true → starts_with is_digit rest = false.
Proof.
  destruct rest as [|c rest]; [done|]. cbn.
  intros H%bool_decide_eq_true.
  repeat (apply elem_of_cons in H as [->|H]; [done|]).
  by apply elem_of_nil in H.
Qed.

Lemma delimited_not_fraction rest :
  delimited rest = true →
  starts_with (λ c, bool_decide (c ∈ ["."; "e"; "E"]%char)) rest = false.
Proof.
  destruct rest as [|c rest]; [done|]. cbn.
  intros H%bool_decide_eq_true.
  repeat (apply elem_of_cons in H as [->|H]; [done|]).
  by apply elem_of_nil in H.
Qed.

Lemma pretty_positive_head (p : positive) :
  ∃ c t d, pretty (N.pos p) = String c t ∧ digit_value c = Some d.
Proof.
  destruct (pretty_head (N.pos p) "" eq_refl) as (c & t & d & Hhead & Hc & _).
  exists c, t, d. split; [|done].
  unfold pretty, pretty_N. by destruct (decide _).
Qed.

Lemma parse_number_pretty (z : Z) rest :
  delimited rest = true →
  parse_number (pretty z +:+ rest) = Some (VNum z, rest).
Proof.
  intros Hrest.
  pose proof (delimited_not_digit rest Hrest) as Hdigit.
  pose proof (delimited_not_fraction rest Hrest) as Hfrac.
  assert (parse_integer (pretty z +:+ rest) = Some (z, rest)) as Hint.
  { destruct z as [|p|p]; unfold pretty, pretty_Z.
    - pose proof (parse_nat_pretty 0 rest Hdigit) as Hnat.
      change (pretty 0%N) with "0" in Hnat.
      rewrite string_app_cons in *. unfold parse_integer.
      change (Ascii.eqb "0" "-") with false. cbv iota. by rewrite Hnat.
    - unfold pretty at 1, pretty_positive.
      pose proof (parse_nat_pretty (N.pos p) rest Hdigit) as Hnat.
      destruct (pretty_positive_head p) as (c & t & d & Hp & Hc).
      rewrite Hp, string_app_cons in *. unfold parse_integer.
      assert (Ascii.eqb c "-" = false) as ->.
      { apply Ascii.eqb_neq. by intros ->. }
      by rewrite Hnat.
    - unfold pretty at 1, pretty_positive.
      rewrite string_app_assoc, string_app_cons, string_app_nil_l.
      unfold parse_integer.
      change (Ascii.eqb "-" "-") with true. cbv iota.
      by rewrite (parse_nat_pretty (N.pos p) rest Hdigit). }
  unfold parse_number. rewrite Hint. cbn [mbind option_bind].
  by rewrite Hfrac.
Qed.

(** A number starts with a digit or a minus sign. *)
Lemma pretty_Z_head (z : Z) :
  ∃ c t, pretty z = String c t ∧ (is_digit c = true ∨ c = "-"%char).
Proof.
  destruct z as [|p|p].
  - exists "0"%char, "". by split; [|left].
  - destruct (pretty_positive_head p) as (c & t & d & Hp & Hc).
    exists c, t. split; [exact Hp|].
    left. unfold is_digit. rewrite Hc. by apply bool_decide_eq_true.
  - eexists "-"%char, _. split; [reflexivity|by right].
Qed.

Lemma parse_value_number fuel c t :
  is_digit c = true ∨ c = "-"%char →
  parse_value (S fuel) (String c t) = parse_number (String c t).
Proof.
  intros Hc.
  destruct c as [[] [] [] [] [] [] [] []];
    try reflexivity; exfalso; destruct Hc as [Hc|Hc]; discriminate Hc.
Qed.

End Numbers.

(* --------------------------------------------------------------------- *)
(** ** Induction on values *)
(* --------------------------------------------------------------------- *)

Section Induction.
Import Platform.

Lemma nodes_elem x (l : list value) :
  x ∈ l → (nodes x ≤ foldr (λ x n, nodes x + n) 0 l)%nat.
Proof.
  induction l as [|y l IH]; [by intros ?%elem_of_nil|].
  intros [->|Hin]%elem_of_cons; cbn; [lia|]. specialize (IH Hin). lia.
Qed.

Lemma nodes_member k x (m : gmap string value) :
  m !! k = Some x → (nodes x ≤ map_fold (λ _ x n, nodes x + n) 0 m)%nat.
Proof.
  intros Hk%elem_of_map_to_list. rewrite map_fold_foldr.
  induction (map_to_list m) as [|[k' y] l IH]; [by apply elem_of_nil in Hk|].
  apply elem_of_cons in Hk as [[= <- <-]|Hin]; cbn; [lia|].
  specialize (IH Hin). lia.
Qed.

Lemma value_nested_ind (P : value → Prop) :
  P VUndef → P VNull → (∀ b, P (VBool b)) → (∀ n, P (VNum n)) →
  (∀ s, P (VStr s)) →
  (∀ l, Forall P l → P (VArr l)) →
  (∀ m, map_Forall (λ _, P) m → P (VObj m)) →
  ∀ v, P v.
Proof.
  intros Hu Hn Hb Hz Hs Ha Ho v.
  revert v. assert (∀ k v, (nodes v < k)%nat → P v) as Hall.
  { intros k. induction k as [|k IHk]; intros v Hlt; [lia|].
    destruct v as [| |b|n|s|l|m]; auto.
    - apply Ha. apply Forall_forall. intros x Hx. apply IHk.
      pose proof (nodes_elem x l Hx). cbn in Hlt. lia.
    - apply Ho. intros i x Hx. apply IHk.
      pose proof (nodes_member i x m Hx). cbn in Hlt. lia. }
  intros v. apply (Hall (S (nodes v))). lia.
Qed.

End Induction.

(* --------------------------------------------------------------------- *)
(** ** JSON: arrays and objects *)
(* --------------------------------------------------------------------- *)

Section Parser.
Import Platform.

Lemma parse_elements_comma f s v r :
  parse_value f s = Some (v, String "," r) →
  parse_elements (S f) s = '(vs, r') ← parse_elements f r; Some (v :: vs, r').
Proof. intros H. cbn [parse_elements]. by rewrite H. Qed.

Lemma parse_elements_close f s v r :
  parse_value f s = Some (v, String "]" r) →
  parse_elements (S f) s = Some ([v], r).
Proof. intros H. cbn [parse_elements]. by rewrite H. Qed.

Lemma parse_members_comma f t k r1 v r3 :
  parse_chars t = Some (k, String ":" r1) →
  parse_value f r1 = Some (v, String "," r3) →
  parse_members (S f) (String dquote t)
  = '(ms, r4) ← parse_members f r3; Some ((k, v) :: ms, r4).
Proof.
  intros H1 H2. cbn [parse_members].
  change (skip_ws (String dquote t)) with (String dquote t).
  unfold dquote. cbv iota beta. rewrite H1. cbn [mbind option_bind].
  change (skip_ws (String ":" r1)) with (String ":" r1). cbv iota beta.
  by rewrite H2.
Qed.

Lemma parse_members_close f t k r1 v r3 :
  parse_chars t = Some (k, String ":" r1) →
  parse_value f r1 = Some (v, String "}" r3) →
  parse_members (S f) (String dquote t) = Some ([(k, v)], r3).
Proof.
  intros H1 H2. cbn [parse_members].
  change (skip_ws (String dquote t)) with (String dquote t).
  unfold dquote. cbv iota beta. rewrite H1. cbn [mbind option_bind].
  change (skip_ws (String ":" r1)) with (String ":" r1). cbv iota beta.
  by rewrite H2.
Qed.

Lemma parse_value_array f c t :
  value_start c = true →
  parse_value (S f) (String "[" (String c t))
  = '(l, rest) ← parse_elements f (String c t); Some (VArr l, rest).
Proof.
  intros Hc.
  destruct c as [[] [] [] [] [] [] [] []]; try reflexivity; discriminate Hc.
Qed.

Lemma parse_value_object f t :
  parse_value (S f) (String "{" (String dquote t))
  = '(ms, rest) ← parse_members f (String dquote t);
    Some (VObj (object_of ms), rest).
Proof. reflexivity. Qed.

Lemma parse_value_string f t :
  parse_value (S f) (String dquote t)
  = '(str, rest) ← parse_chars t; Some (VStr str, rest).
Proof. reflexivity. Qed.

Lemma concat_cons (sep x y : string) (l : list string) :
  String.concat sep (x :: y :: l) = x +:+ sep +:+ String.concat sep (y :: l).
Proof. reflexivity. Qed.

Lemma length_concat (texts : list string) :
  texts ≠ [] →
  S (String.length (String.concat "," texts)) = total_length texts.
Proof.
  induction texts as [|x [|y l] IH]; [done| |]; intros _.
  - cbn. lia.
  - rewrite concat_cons, !string_length_app.
    change (total_length (x :: y :: l))
      with (S (String.length x) + total_length (y :: l))%nat.
    rewrite <-IH by done. cbn. lia.
Qed.

Lemma parse_elements_printed (l : list value) :
  l ≠ [] →
  Forall (λ v, reads_back v (printed v)) l →
  ∀ fuel rest,
    (total_length (printed <$> l) ≤ fuel)%nat →
    parse_elements fuel (String.concat "," (printed <$> l) +:+ String "]" rest)
    = Some (l, rest).
Proof.
  induction l as [|v [|w l] IH]; [done| |]; intros _ Hall fuel rest Hfuel.
  - apply Forall_cons in Hall as [Hv _].
    destruct fuel as [|fuel]; [cbn in Hfuel; lia|].
    apply parse_elements_close. apply Hv; [done|]. cbn in Hfuel. lia.
  - apply Forall_cons in Hall as [Hv Hall].
    destruct fuel as [|fuel]; [cbn in Hfuel; lia|].
    change (printed <$> v :: w :: l)
      with (printed v :: printed w :: (printed <$> l)) in *.
    change (total_length (printed v :: printed w :: (printed <$> l)))
      with (S (String.length (printed v))
            + total_length (printed <$> w :: l))%nat in Hfuel.
    rewrite concat_cons, !string_app_assoc, string_app_cons, string_app_nil_l.
    rewrite (parse_elements_comma fuel _ v
               (String.concat "," (printed <$> w :: l) +:+ String "]" rest)).
    + rewrite (IH ltac:(done) Hall fuel rest) by lia. done.
    + apply Hv; [done|lia].
Qed.

Lemma quote_cons k rest :
  ∃ t, quote k +:+ rest = String dquote t ∧ parse_chars t = Some (k, rest).
Proof. apply parse_chars_quote. Qed.

Lemma length_member k v :
  (String.length (printed v) < String.length (member (k, v)))%nat.
Proof.
  unfold member, quote. rewrite string_app_cons.
  cbn [String.length]. rewrite !string_length_app. cbn. lia.
Qed.

Lemma parse_members_printed (l : list (string * value)) :
  l ≠ [] →
  Forall (λ kv, reads_back kv.2 (printed kv.2)) l →
  ∀ fuel rest,
    (total_length (member <$> l) ≤ fuel)%nat →
    parse_members fuel (String.concat "," (member <$> l) +:+ String "}" rest)
    = Some (l, rest).
Proof.
  induction l as [|[k v] [|w l] IH]; [done| |]; intros _ Hall fuel rest Hfuel.
  - apply Forall_cons in Hall as [Hv _]. cbn [snd] in Hv.
    destruct fuel as [|fuel]; [by apply Nat.nle_succ_0 in Hfuel|].
    pose proof (length_member k v) as Hlen.
    cbn [fmap list_fmap String.concat]. unfold member at 1.
    rewrite !string_app_assoc.
    destruct (quote_cons k (":" +:+ printed v +:+ String "}" rest))
      as (t & -> & Ht).
    rewrite string_app_cons, string_app_nil_l in Ht.
    eapply parse_members_close; [exact Ht|].
    apply Hv; [done|].
    change (total_length (member <$> [(k, v)]))
      with (S (String.length (member (k, v))) + 0)%nat in Hfuel. lia.
  - apply Forall_cons in Hall as [Hv Hall]. cbn [snd] in Hv.
    destruct fuel as [|fuel]; [by apply Nat.nle_succ_0 in Hfuel|].
    pose proof (length_member k v) as Hlen.
    change (member <$> (k, v) :: w :: l)
      with (member (k, v) :: member w :: (member <$> l)) in *.
    change (total_length (member (k, v) :: member w :: (member <$> l)))
      with (S (String.length (member (k, v)))
            + total_length (member <$> w :: l))%nat in Hfuel.
    rewrite concat_cons. unfold member at 1. rewrite !string_app_assoc.
    destruct (quote_cons k
                (":" +:+ printed v +:+ "," +:+
                 String.concat "," (member w :: (member <$> l))
                 +:+ String "}" rest)) as (t & -> & Ht).
    rewrite !string_app_cons, !string_app_nil_l in Ht.
    erewrite parse_members_comma; [|exact Ht|apply Hv; [done|lia]].
    change (member w :: (member <$> l)) with (member <$> w :: l).
    rewrite (IH ltac:(done) Hall fuel rest) by lia. done.
Qed.

End Parser.

(* --------------------------------------------------------------------- *)
(** ** JSON.parse inverts JSON.stringify *)
(* --------------------------------------------------------------------- *)

Section RoundTrip.
Import Platform.

Lemma serializable_elements l :
  serializable (VArr l) = true → Forall (λ x, serializable x = true) l.
Proof.
  cbn [serializable]. induction l as [|x l IH]; [done|]. cbn.
  intros [Hx Hl]%andb_true_iff. constructor; [done|by apply IH].
Qed.

Lemma serializable_members (m : gmap string value) :
  serializable (VObj m) = true → map_Forall (λ _ x, serializable x = true) m.
Proof.
  cbn [serializable]. rewrite map_fold_foldr. intros Hfold k x Hk.
  apply elem_of_map_to_list in Hk.
  induction (map_to_list m) as [|[k' y] l IH]; [by apply elem_of_nil in Hk|].
  cbn in Hfold. apply andb_true_iff in Hfold as [Hy Hl].
  apply elem_of_cons in Hk as [[= -> ->]|Hin]; [done|by apply IH].
Qed.

Lemma stringify_array l :
  JSON_stringify (VArr l)
  = Some ("[" +:+ String.concat "," (printed <$> l) +:+ "]").
Proof. reflexivity. Qed.

Lemma members_printed (l : list (string * value)) :
  Forall (λ kv, JSON_stringify kv.2 = Some (printed kv.2)) l →
  omap (λ kv : string * option string,
          (λ s, quote kv.1 +:+ ":" +:+ s) <$> kv.2)
       (prod_map id JSON_stringify <$> l)
  = member <$> l.
Proof.
  induction 1 as [|[k x] l Hx _ IH]; [done|].
  cbn in *. rewrite Hx. cbn. by rewrite IH.
Qed.

Lemma stringify_object (m : gmap string value) :
  map_Forall (λ _ x, JSON_stringify x = Some (printed x)) m →
  JSON_stringify (VObj m)
  = Some ("{" +:+ String.concat "," (member <$> map_to_list m) +:+ "}").
Proof.
  intros Hall. cbn [JSON_stringify].
  rewrite map_to_list_fmap, members_printed; [done|].
  apply Forall_forall. intros [k x] Hk%elem_of_map_to_list.
  by apply (Hall k x).
Qed.

Lemma value_start_number c :
  is_digit c = true ∨ c = "-"%char → value_start c = true.
Proof.
  intros Hc.
  destruct c as [[] [] [] [] [] [] [] []];
    try reflexivity; exfalso; destruct Hc as [Hc|Hc]; discriminate Hc.
Qed.

Lemma concat_head (texts : list string) c t :
  ∃ t', String.concat "," (String c t :: texts) = String c t'.
Proof.
  destruct texts as [|y l]; [by exists t|].
  rewrite concat_cons, string_app_cons. by eexists.
Qed.

Lemma object_of_map_to_list (m : gmap string value) :
  object_of (map_to_list m) = m.
Proof.
  unfold object_of. rewrite <-(list_to_map_to_list m) at 2.
  apply list_to_map_proper.
  - rewrite fmap_reverse, reverse_Permutation. apply NoDup_fst_map_to_list.
  - apply reverse_Permutation.
Qed.

Lemma atom_reads_back (v : value) (c : ascii) (t : string) :
  (∀ fuel rest, parse_value (S fuel) (String c t +:+ rest) = Some (v, rest)) →
  reads_back v (String c t).
Proof.
  intros H fuel rest _ Hfuel.
  destruct fuel as [|fuel]; [cbn in Hfuel; lia|]. apply H.
Qed.

Theorem serializable_round_trips v : serializable v = true → round_trips v.
Proof.
  induction v as [| |b|n|s|l IH|m IH] using value_nested_ind; intros Hser.
  - done.
  - split; [done|]. split; [by apply atom_reads_back|by eexists _, _].
  - destruct b; (split; [done|]);
      (split; [by apply atom_reads_back|by eexists _, _]).
  - split; [done|].
    destruct (pretty_Z_head n) as (c & t & Hp & Hc).
    unfold printed. cbn [JSON_stringify from_option id]. split.
    + intros fuel rest Hrest Hfuel.
      destruct fuel as [|fuel]; [rewrite Hp in Hfuel; cbn in Hfuel; lia|].
      pose proof (parse_number_pretty n rest Hrest) as Hnum.
      rewrite Hp, string_app_cons in *. by rewrite parse_value_number.
    + exists c, t. split; [done|by apply value_start_number].
  - split; [done|]. unfold printed. cbn [JSON_stringify from_option id]. split.
    + intros fuel rest Hrest Hfuel.
      destruct fuel as [|fuel]; [cbn in Hfuel; lia|].
      destruct (parse_chars_quote s rest) as (t & -> & Ht).
      by rewrite parse_value_string, Ht.
    + by eexists _, _.
  - (* arrays *)
    pose proof (serializable_elements l Hser) as Hsers.
    assert (Forall round_trips l) as Hall.
    { apply Forall_forall. intros x Hx.
      rewrite Forall_forall in IH, Hsers. by apply IH, Hsers. }
    assert (JSON_stringify (VArr l)
            = Some ("[" +:+ String.concat "," (printed <$> l) +:+ "]"))
      as Hprint.
    { apply stringify_array. }
    split; [by unfold printed; rewrite Hprint|].
    unfold printed. rewrite Hprint. cbn [from_option id]. split; [|by eexists _, _].
    intros fuel rest Hrest Hfuel.
    rewrite string_app_cons, string_app_nil_l in Hfuel.
    cbn [String.length] in Hfuel.
    destruct fuel as [|fuel]; [lia|].
    destruct l as [|x l]; [reflexivity|].
    rewrite string_length_app in Hfuel. cbn [String.length] in Hfuel.
    rewrite string_app_cons, string_app_nil_l, string_app_cons,
      string_app_assoc, string_app_cons, string_app_nil_l.
    apply Forall_cons in Hall as Hall'.
    destruct Hall' as [(_ & _ & c & t & Hx & Hc) _].
    assert (printed <$> x :: l ≠ []) as Hne by (intros [=]).
    pose proof (length_concat (printed <$> x :: l) Hne) as Hlen.
    assert (parse_elements fuel
              (String.concat "," (printed <$> x :: l) +:+ String "]" rest)
            = Some (x :: l, rest)) as Hparse.
    { apply parse_elements_printed; [done| |lia].
      eapply Forall_impl; [exact Hall|]. by intros y (_ & ? & _). }
    change (printed <$> x :: l) with (printed x :: (printed <$> l)) in *.
    rewrite Hx in Hparse |- *.
    destruct (concat_head (printed <$> l) c t) as (t' & Ht').
    rewrite Ht', string_app_cons in Hparse |- *.
    by rewrite parse_value_array, Hparse.
  - (* objects *)
    pose proof (serializable_members m Hser) as Hsers.
    assert (map_Forall (λ _, round_trips) m) as Hall.
    { intros k x Hk. by eapply IH, Hsers. }
    assert (JSON_stringify (VObj m)
            = Some ("{" +:+ String.concat "," (member <$> map_to_list m)
                    +:+ "}")) as Hprint.
    { apply stringify_object. intros k x Hk. by destruct (Hall k x Hk). }
    split; [by unfold printed; rewrite Hprint|].
    unfold printed. rewrite Hprint. cbn [from_option id]. split; [|by eexists _, _].
    intros fuel rest Hrest Hfuel.
    rewrite string_app_cons, string_app_nil_l in Hfuel.
    cbn [String.length] in Hfuel.
    destruct fuel as [|fuel]; [lia|].
    rewrite <-(object_of_map_to_list m) at 2.
    assert (Forall (λ kv, reads_back kv.2 (printed kv.2)) (map_to_list m))
      as Hlist.
    { apply Forall_forall. intros [k x] Hk%elem_of_map_to_list.
      by destruct (Hall k x Hk) as (_ & ? & _). }
    destruct (map_to_list m) as [|[k x] l]; [reflexivity|].
    rewrite string_length_app in Hfuel. cbn [String.length] in Hfuel.
    rewrite string_app_cons, string_app_nil_l, string_app_cons,
      string_app_assoc, string_app_cons, string_app_nil_l.
    assert (member <$> (k, x) :: l ≠ []) as Hne by (intros [=]).
    pose proof (length_concat (member <$> (k, x) :: l) Hne) as Hlen.
    assert (parse_members fuel
              (String.concat "," (member <$> (k, x) :: l) +:+ String "}" rest)
            = Some ((k, x) :: l, rest)) as Hparse.
    { apply parse_members_printed; [done|done|lia]. }
    change (member <$> (k, x) :: l)
      with (member (k, x) :: (member <$> l)) in *.
    assert (∃ t, member (k, x) = String dquote t) as (t & Hm).
    { unfold member, quote. rewrite string_app_cons. by eexists. }
    rewrite Hm in Hparse |- *.
    destruct (concat_head (member <$> l) dquote t) as (t' & Ht').
    rewrite Ht', string_app_cons in Hparse |- *.
    by rewrite parse_value_object, Hparse.
Qed.

(** JSON.parse(JSON.stringify(v)) is [v]. *)
Theorem JSON_parse_stringify v :
  serializable v = true →
  ∃ text, JSON_stringify v = Some text ∧ JSON_parse text = Some v.
Proof.
  intros (Hprint & Hread & _)%serializable_round_trips.
  exists (printed v). split; [done|]. unfold JSON_parse.
  pose proof (Hread (S (String.length (printed v))) "" eq_refl) as Hparse.
  rewrite string_app_nil_r in Hparse. rewrite Hparse by lia. done.
Qed.

End RoundTrip.

(* --------------------------------------------------------------------- *)
(** ** The encryption plugin *)
(* --------------------------------------------------------------------- *)

Section Encryption.
Import Platform Utils Plugins Keys Client Examples.

Lemma encrypt_serializable v :
  serializable v = true → encrypt v = Return (cipher v).
Proof.
  intros (Hprint & _)%serializable_round_trips.
  unfold encrypt, cipher. by rewrite Hprint.
Qed.

Lemma decrypt_cipher v : serializable v = true → decrypt (cipher v) = v.
Proof.
  intros Hser. destruct (JSON_parse_stringify v Hser) as (text & Hprint & Hparse).
  unfold decrypt, cipher, printed. rewrite Hprint. cbn [from_option id].
  by rewrite base64_decode_encode, Hparse.
Qed.

Lemma iter_cipher_serializable n v :
  serializable v = true → serializable (Nat.iter n cipher v) = true.
Proof. intros Hser. by destruct n. Qed.

Lemma iter_decrypt_cipher n v :
  serializable v = true → Nat.iter n decrypt (Nat.iter n cipher v) = v.
Proof.
  intros Hser. induction n as [|n IH]; [done|].
  rewrite Nat.iter_succ_r. cbn [Nat.iter nat_rect].
  change (nat_rect _ v (λ _, cipher) n) with (Nat.iter n cipher v).
  by rewrite decrypt_cipher by (by apply iter_cipher_serializable).
Qed.

Lemma encrypt_fields_lookup fields (m : gmap string value) :
  listed_serializable fields m →
  ∃ m', encrypt_fields fields m = Return m'
        ∧ ∀ g, m' !! g = Nat.iter (occurrences g fields) cipher <$> m !! g.
Proof.
  revert m. induction fields as [|f fields IH]; intros m Hser.
  { exists m. split; [done|]. intros g. by destruct (m !! g). }
  cbn [encrypt_fields occurrences].
  destruct (m !! f) as [x|] eqn:Hf.
  - rewrite (encrypt_serializable x) by (eapply Hser; [left|done]).
    cbn [mbind completion_bind cbind].
    destruct (IH (<[f := cipher x]> m)) as (m' & Hrun & Hlook).
    { intros f' y Hin Hy. destruct (decide (f = f')) as [<-|Hne].
      - rewrite lookup_insert_eq in Hy. by simplify_eq.
      - rewrite lookup_insert_ne in Hy by done. eapply Hser; [by right|done]. }
    exists m'. split; [done|]. intros g. rewrite Hlook.
    destruct (decide (f = g)) as [<-|Hne].
    + rewrite lookup_insert_eq, Hf. cbn [fmap option_fmap option_map].
      by rewrite Nat.iter_succ_r.
    + by rewrite lookup_insert_ne.
  - destruct (IH m) as (m' & Hrun & Hlook).
    { intros f' y Hin Hy. eapply Hser; [by right|done]. }
    exists m'. split; [done|]. intros g. rewrite Hlook.
    destruct (decide (f = g)) as [<-|Hne]; [by rewrite Hf|done].
Qed.

Lemma decrypt_fields_lookup fields (m : gmap string value) g :
  decrypt_fields fields m !! g
  = Nat.iter (occurrences g fields) decrypt <$> m !! g.
Proof.
  revert m. induction fields as [|f fields IH]; intros m.
  { cbn [decrypt_fields]. by destruct (m !! g). }
  cbn [decrypt_fields occurrences].
  destruct (m !! f) as [x|] eqn:Hf.
  - rewrite IH. destruct (decide (f = g)) as [<-|Hne].
    + rewrite lookup_insert_eq, Hf. cbn [fmap option_fmap option_map].
      by rewrite Nat.iter_succ_r.
    + by rewrite lookup_insert_ne.
  - rewrite IH. destruct (decide (f = g)) as [<-|Hne]; [by rewrite Hf|done].
Qed.

Lemma occurrences_listed g fields : g ∉ fields → occurrences g fields = 0.
Proof.
  induction fields as [|f fields IH]; [done|].
  intros Hnot. cbn. destruct (decide (f = g)) as [->|Hne].
  - destruct Hnot. left.
  - apply IH. intros Hin. apply Hnot. by right.
Qed.

Lemma spread_one (item : value) : spread [item] = own_props item.
Proof. unfold spread. cbn. by rewrite (right_id_L ∅ (∪)). Qed.

Lemma occurrences_elem g fields :
  g ∈ fields → ∃ k, occurrences g fields = S k.
Proof.
  induction fields as [|f fields IH]; [by intros ?%elem_of_nil|].
  intros Hin. cbn. destruct (decide (f = g)) as [->|Hne]; [by eexists|].
  apply IH. apply elem_of_cons in Hin as [->|Hin]; [done|exact Hin].
Qed.

Lemma decrypt_encrypted_lookup fields (m stored : gmap string value) g :
  listed_serializable fields m →
  (∀ g, stored !! g = Nat.iter (occurrences g fields) cipher <$> m !! g) →
  Nat.iter (occurrences g fields) decrypt <$> stored !! g = m !! g.
Proof.
  intros Hser Hstored. rewrite Hstored.
  destruct (m !! g) as [x|] eqn:Hg; [|done]. cbn. f_equal.
  destruct (decide (g ∈ fields)) as [Hin|Hnot].
  - apply iter_decrypt_cipher. by eapply Hser.
  - by rewrite occurrences_listed.
Qed.

Lemma storable_cipher_iter k x :
  storable (Nat.iter (S k) cipher x) = Some (Nat.iter (S k) cipher x).
Proof. reflexivity. Qed.

Lemma applyPlugins_single config phase plugin h data :
  Dodo.the_plugins config = [plugin] →
  Dodo.handler plugin phase = Some h →
  Dodo.applyPlugins config phase data = h data.
Proof.
  intros Hps Hh. unfold Dodo.applyPlugins. rewrite Hps, Hh.
  by destruct (h data).
Qed.

(** C10.  For every value without [undefined] inside, decrypt(encrypt(v))
    is [v].  Consequently, for every list of fields and every record whose
    listed fields hold such values, the encryption plugin's onAfterGet
    applied to what its onBeforePut returns gives the record back; and a
    record put through a facade whose only plugin is the encryption
    plugin, and got at the key under which it was written, comes back with
    the listed fields unchanged.  That key is the record's own key when
    [pk] and [sk] are not among the listed fields. *)
Theorem encryption_round_trip (fields : list string) :
  (∀ v, serializable v = true → ∃ c, encrypt v = Return c ∧ decrypt c = v)
  ∧ ∃ before after,
      Dodo.onBeforePut (encryption fields) = Some before
      ∧ Dodo.onAfterGet (encryption fields) = Some after
      ∧ ∀ item,
          listed_serializable fields (own_props item) →
          ∃ stored,
            before item = Return (VObj stored)
            ∧ after (VObj stored) = Return (VObj (own_props item))
            ∧ (∀ config s key,
                 Dodo.the_plugins config = [encryption fields] →
                 primary_key (omap storable stored) = Some (pk key, sk key) →
                 ∃ s' got,
                   Dodo.put config item s = (Return (), s')
                   ∧ fst (Dodo.get config key s') = Return (VObj got)
                   ∧ ∀ f, f ∈ fields → got !! f = own_props item !! f)
            ∧ (∀ p q,
                 "pk" ∉ fields → "sk" ∉ fields →
                 own_props item !! "pk" = Some (VStr p) →
                 own_props item !! "sk" = Some (VStr q) →
                 primary_key (omap storable stored) = Some (p, q)).
Proof.
  split.
  { intros v Hser. exists (cipher v).
    split; [by apply encrypt_serializable|by apply decrypt_cipher]. }
  eexists _, _. split; [reflexivity|]. split; [reflexivity|].
  intros item Hser.
  destruct (encrypt_fields_lookup fields (own_props item) Hser)
    as (stored & Hrun & Hstored).
  assert (decrypt_fields fields stored = own_props item) as Hback.
  { apply map_eq. intros g. rewrite decrypt_fields_lookup.
    by apply decrypt_encrypted_lookup. }
  exists stored. split; [|split; [|split]].
  - cbv beta. by rewrite spread_one, Hrun.
  - cbv beta. rewrite spread_one. cbn [own_props]. by rewrite Hback.
  - intros config s key Hplugins Hkey.
    eexists _, (decrypt_fields fields (omap storable stored)). split; [|split].
    + unfold Dodo.put, send_put. unfold_M.
      rewrite (applyPlugins_single config Dodo.OnBeforePut (encryption fields)
                 _ item Hplugins eq_refl).
      cbv beta. rewrite spread_one, Hrun. unfold_M. cbv beta iota.
      change (marshall (VObj stored)) with (VObj (omap storable stored)).
      cbv beta iota. rewrite Hkey. reflexivity.
    + unfold Dodo.get, send_get. unfold_M. cbn [table].
      rewrite lookup_insert_eq.
      rewrite (applyPlugins_single config Dodo.OnAfterGet (encryption fields)
                 _ _ Hplugins eq_refl).
      cbv beta. cbn [fst]. by rewrite spread_one.
    + intros f Hf. rewrite decrypt_fields_lookup.
      destruct (occurrences_elem f fields Hf) as (k & Hk).
      rewrite <-(decrypt_encrypted_lookup fields (own_props item) stored f)
        by done.
      f_equal. rewrite lookup_omap, Hstored, Hk.
      destruct (own_props item !! f) as [x|]; [|done].
      cbn [fmap option_fmap option_map mbind option_bind].
      apply storable_cipher_iter.
  - intros p q Hpk Hsk Hp Hq. unfold primary_key.
    rewrite !lookup_omap, !Hstored, Hp, Hq.
    by rewrite !occurrences_listed by done.
Qed.

Lemma encryption_round_trip_witness :
  ∃ s' got,
    Dodo.put dodo_encrypting alice_with_ssn {| table := ∅; sent := [] |}
      = (Return (), s')
    ∧ fst (Dodo.get dodo_encrypting Examples.key1 s') = Return (VObj got)
    ∧ got !! "ssn" = Some (VStr "123-45-6789").
Proof.
  destruct (encryption_round_trip ["ssn"])
    as (_ & before & after & Hb & Ha & Hitem).
  injection Hb as <-. injection Ha as <-.
  destruct (Hitem alice_with_ssn) as (stored & _ & _ & Hstore & Hown).
  { intros f x ->%list_elem_of_singleton Hx.
    vm_compute in Hx. by injection Hx as <-. }
  destruct (Hstore dodo_encrypting {| table := ∅; sent := [] |} Examples.key1
              eq_refl) as (s' & got & Hput & Hget & Hfields).
  { apply Hown; [by intros ?%list_elem_of_singleton..|reflexivity|reflexivity]. }
  exists s', got. split; [exact Hput|]. split; [exact Hget|].
  rewrite Hfields; [reflexivity|left].
Defined.

Example encrypt_ssn :
  encrypt (VStr "123-45-6789") = Return (VStr "IjEyMy00NS02Nzg5Ig==")
  ∧ decrypt (VStr "IjEyMy00NS02Nzg5Ig==") = VStr "123-45-6789".
Proof. split; vm_compute; reflexivity. Qed.

Example decrypt_plain_text :
  decrypt (VStr "not base64 of JSON") = VStr "not base64 of JSON"
  ∧ decrypt (VNum 7) = VNum 7.
Proof. split; vm_compute; reflexivity. Qed.

End Encryption.

(* --------------------------------------------------------------------- *)
(** ** toSnakeCase, toCamelCase and the caseTransform plugin *)
(* --------------------------------------------------------------------- *)

Section CaseConversion.
Import Platform Utils Keys Client Plugins.

Lemma rekey_snoc f (l : list (string * value)) kv (acc : gmap string value) :
  foldl (λ acc kv, <[f kv.1 := kv.2]> acc) acc (l ++ [kv])
  = <[f kv.1 := kv.2]> (foldl (λ acc kv, <[f kv.1 := kv.2]> acc) acc l).
Proof. by rewrite foldl_app. Qed.

(** Every member of a renamed object comes from a member of the object. *)
Lemma rekey_lookup_Some f (m : gmap string value) k' x :
  rekey f m !! k' = Some x → ∃ k, f k = k' ∧ m !! k = Some x.
Proof.
  unfold rekey.
  assert (∀ l : list (string * value),
            foldl (λ acc kv, <[f kv.1 := kv.2]> acc) (∅ : gmap string value) l
              !! k' = Some x →
            ∃ k, f k = k' ∧ (k, x) ∈ l) as Hl.
  { induction l as [|[k y] l IH] using rev_ind; [done|].
    rewrite rekey_snoc. cbn. destruct (decide (f k = k')) as [<-|Hne].
    - rewrite lookup_insert_eq. intros [= ->]. exists k. split; [done|].
      apply elem_of_app. right. left.
    - rewrite lookup_insert_ne by done. intros (k0 & Hk0 & Hin)%IH.
      exists k0. split; [done|]. apply elem_of_app. by left. }
  intros (k & Hk & Hin%elem_of_map_to_list)%Hl. by exists k.
Qed.






Lemma toUpperCase_is_upper c : is_lower c = true → is_upper (toUpperCase c) = true.
Proof.
  destruct c as [[] [] [] [] [] [] [] []]; try discriminate; reflexivity.
Qed.

Lemma is_upper_not_lower c : is_upper c = true → is_lower c = false.
Proof.
  destruct c as [[] [] [] [] [] [] [] []]; try discriminate; reflexivity.
Qed.

Lemma is_upper_underscore : is_upper "_" = false.
Proof. reflexivity. Qed.

Lemma string_ind2 (P : string → Prop) :
  P "" → (∀ c, P (String c "")) →
  (∀ c d s, P s → P (String d s) → P (String c (String d s))) →
  ∀ s, P s.
Proof.
  intros H0 H1 H2. 
  assert (∀ s, P s ∧ ∀ c, P (String c s)) as H.
  { induction s as [|d s [IH1 IH2]]; [by split|]. split; [apply IH2|].
    intros c. apply H2; [done|apply IH2]. }
  intros s. apply H.
Qed.

Lemma snake_cased_snakeKey key : snake_cased (snakeKey key) = true.
Proof.
  induction key as [|c key IH]; [done|]. cbn [snakeKey].
  destruct (is_upper c) eqn:Hc; cbn [snake_cased].
  - rewrite IH. 
    assert (is_upper (toLowerCase c) = false) as ->.
    { apply is_upper_not_lower in Hc as Hl. 
      revert Hc. destruct c as [[] [] [] [] [] [] [] []]; try discriminate; reflexivity. }
    reflexivity.
  - by rewrite Hc, IH.
Qed.

(** The first letter of a converted key. *)
Lemma camelKey_head d s l t :
  camelKey (String d s) = String l t → is_lower d = false → is_lower l = false.
Proof.
  cbn [camelKey]. destruct s as [|e s'].
  - by intros [= <- <-].
  - destruct (Ascii.eqb d "_" && is_lower e) eqn:Hde.
    + intros [= <- <-] _. apply andb_true_iff in Hde as [_ He].
      apply toUpperCase_is_upper in He. 
      revert He. generalize (toUpperCase e). intros u.
      destruct u as [[] [] [] [] [] [] [] []]; try discriminate; reflexivity.
    + by intros [= <- <-].
Qed.

Lemma camel_cased_camelKey key : camel_cased (camelKey key) = true.
Proof.
  induction key as [|c|c d s IHs IHds] using string_ind2; [done..|].
  cbn [camelKey]. destruct (Ascii.eqb c "_" && is_lower d) eqn:Hcd.
  - cbn [camel_cased]. rewrite IHs, andb_true_r.
    destruct (camelKey s) as [|l t]; [done|].
    apply andb_true_iff in Hcd as [_ Hd]. apply toUpperCase_is_upper in Hd.
    assert (Ascii.eqb (toUpperCase d) "_" = false) as ->; [|done].
    revert Hd. generalize (toUpperCase d). intros u.
    destruct u as [[] [] [] [] [] [] [] []]; try discriminate; reflexivity.
  - change (camel_cased (String c (camelKey (String d s))) = true).
    cbn [camel_cased]. rewrite IHds, andb_true_r.
    destruct (camelKey (String d s)) as [|l t] eqn:Hk; [done|].
    destruct (Ascii.eqb c "_") eqn:Hc; [|done]. cbn in Hcd |- *.
    by rewrite (camelKey_head d s l t Hk Hcd).
Qed.



Lemma every_key_elements p l :
  every_key p (VArr l) = true ↔ Forall (λ x, every_key p x = true) l.
Proof.
  cbn [every_key]. rewrite forallb_forall, Forall_forall.
  split; intros H x Hx; apply H; by apply list_elem_of_In.
Qed.

Lemma every_key_members p (m : gmap string value) :
  every_key p (VObj m) = true
  ↔ map_Forall (λ k x, p k = true ∧ every_key p x = true) m.
Proof.
  cbn [every_key]. rewrite map_fold_foldr, map_Forall_to_list.
  induction (map_to_list m) as [|[k y] l IH]; cbn.
  - split; [constructor|done].
  - rewrite !andb_true_iff, IH, Forall_cons. cbn. tauto.
Qed.

Lemma serializable_object (m : gmap string value) :
  serializable (VObj m) = true ↔ map_Forall (λ _ x, serializable x = true) m.
Proof.
  cbn [serializable]. rewrite map_fold_foldr, map_Forall_to_list.
  induction (map_to_list m) as [|[k y] l IH]; cbn.
  - split; [constructor|done].
  - rewrite !andb_true_iff, IH, Forall_cons. cbn. tauto.
Qed.

Lemma serializable_array l :
  serializable (VArr l) = true ↔ Forall (λ x, serializable x = true) l.
Proof.
  cbn [serializable]. rewrite forallb_forall, Forall_forall.
  split; intros H x Hx; apply H; by apply list_elem_of_In.
Qed.


Lemma toSnakeCase_keys v : every_key snake_cased (toSnakeCase v) = true.
Proof.
  induction v as [| | | | |l IH|m IH] using value_nested_ind; try done.
  - cbn [toSnakeCase]. apply every_key_elements. by apply Forall_map.
  - cbn [toSnakeCase]. apply every_key_members.
    intros k' y (k & <- & Hk)%rekey_lookup_Some.
    apply lookup_fmap_Some in Hk as (x & <- & Hx).
    split; [apply snake_cased_snakeKey|by apply (IH k x)].
Qed.

Lemma toCamelCase_keys v : every_key camel_cased (toCamelCase v) = true.
Proof.
  induction v as [| | | | |l IH|m IH] using value_nested_ind; try done.
  - cbn [toCamelCase]. apply every_key_elements. by apply Forall_map.
  - cbn [toCamelCase]. apply every_key_members.
    intros k' y (k & <- & Hk)%rekey_lookup_Some.
    apply lookup_fmap_Some in Hk as (x & <- & Hx).
    split; [apply camel_cased_camelKey|by apply (IH k x)].
Qed.


(** Nothing is dropped when a value without [undefined] is written. *)
Lemma marshall_serializable v : serializable v = true → marshall v = v.
Proof.
  induction v as [| | | | |l IH|m IH] using value_nested_ind; try done.
  - intros Hl%serializable_array. cbn [marshall]. f_equal.
    induction l as [|x l IHl]; [done|].
    apply Forall_cons in IH as [IHx IH]. apply Forall_cons in Hl as [Hx Hl].
    cbn. destruct x; try done; cbn; rewrite ?(IHl IH Hl); try done.
    + f_equal. by apply IHx.
    + f_equal. by apply IHx.
  - intros Hm%serializable_object. cbn [marshall]. f_equal.
    apply map_eq. intros k. rewrite lookup_omap.
    destruct (m !! k) as [x|] eqn:Hk; [|done]. cbn.
    specialize (IH k x Hk (Hm k x Hk)). specialize (Hm k x Hk). cbn in Hm.
    destruct x; try done; cbn; by f_equal.
Qed.



(** X2.  No property name of a value toSnakeCase returns, at any depth,
    has a capital letter; no property name of a value toCamelCase returns
    has an underscore followed by a small letter. *)
Theorem converted_names v :
  every_key snake_cased (toSnakeCase v) = true
  ∧ every_key camel_cased (toCamelCase v) = true.
Proof. split; [apply toSnakeCase_keys|apply toCamelCase_keys]. Qed.




End CaseConversion.

(* --------------------------------------------------------------------- *)
(** ** Laws of the store facade *)
(* --------------------------------------------------------------------- *)

Section StoreLaws.
Import Platform Utils Keys Client Plugins Examples.

(** X4.  Whatever the plugins, a put that succeeds has run the before-put
    pipeline on the item and stored its result, less the undefined
    members, at the result's own primary key; a get at that key then
    returns the after-get pipeline applied to what was stored. *)
Theorem put_then_get config item s s' :
  Dodo.put config item s = (Return (), s') →
  ∃ transformed attrs p q,
    Dodo.applyPlugins config Dodo.OnBeforePut item = Return transformed
    ∧ marshall transformed = VObj attrs
    ∧ primary_key attrs = Some (p, q)
    ∧ s' = {| table := <[(p, q) := attrs]> (table s);
              sent := sent s ++ [PutCommand transformed] |}
    ∧ Dodo.get config {| pk := p; sk := q |} s'
      = (Dodo.applyPlugins config Dodo.OnAfterGet (VObj attrs),
         log (GetCommand {| pk := p; sk := q |}) s').
Proof.
  unfold Dodo.put, send_put. unfold_M.
  destruct (Dodo.applyPlugins config Dodo.OnBeforePut item)
    as [transformed|e]; [|done].
  destruct (marshall transformed) as [| | | | | |attrs] eqn:Hm; try done.
  destruct (primary_key attrs) as [[p q]|] eqn:Hk; [|done].
  intros [= <-]. exists transformed, attrs, p, q.
  repeat split; try done.
  apply get_present. cbn. by rewrite lookup_insert_eq.
Qed.

Lemma put_then_get_witness :
  ∃ s',
    Dodo.put dodo_encrypting alice_with_ssn {| table := ∅; sent := [] |}
      = (Return (), s')
    ∧ fst (Dodo.get dodo_encrypting key1 s') = Return alice_with_ssn.
Proof.
  destruct (Dodo.put dodo_encrypting alice_with_ssn {| table := ∅; sent := [] |})
    as [[[]|e] s'] eqn:Hput; [|vm_compute in Hput; discriminate Hput].
  exists s'. split; [reflexivity|].
  destruct (put_then_get _ _ _ _ Hput)
    as (transformed & attrs & p & q & Hbefore & Hm & Hk & -> & Hget).
  vm_compute in Hbefore. injection Hbefore as <-.
  vm_compute in Hm. injection Hm as <-.
  vm_compute in Hk. injection Hk as <- <-.
  change {| pk := "USER#1"; sk := "USER#META" |} with key1 in Hget.
  rewrite Hget. vm_compute. reflexivity.
Defined.

(** X5.  delete removes the record at the key and nothing else, whether or
    not a record was there: it succeeds without a read, a get at the key
    then returns null whatever the plugins, and the other records are as
    they were. *)
Theorem delete_then_get config key s :
  ∃ s',
    Dodo.delete key s = (Return (), s')
    ∧ sent s' = (sent s ++ [DeleteCommand key])%list
    ∧ Dodo.get config key s' = (Return VNull, log (GetCommand key) s')
    ∧ (∀ k, k ≠ (pk key, sk key) → table s' !! k = table s !! k)
    ∧ (table s !! (pk key, sk key) = None → table s' = table s).
Proof.
  eexists. split; [reflexivity|]. split; [reflexivity|]. split; [|split].
  - apply get_absent. cbn. apply lookup_delete_eq.
  - intros k Hk. cbn. by rewrite lookup_delete_ne.
  - intros Hnone. cbn. by apply delete_id.
Qed.

Lemma delete_then_get_witness :
  ∃ s',
    Dodo.delete key1 (stored alice) = (Return (), s')
    ∧ Dodo.get dodo_encrypting key1 s' = (Return VNull, log (GetCommand key1) s')
    ∧ table s' = ∅.
Proof.
  destruct (delete_then_get dodo_encrypting key1 (stored alice))
    as (s' & Hdelete & _ & Hget & _).
  exists s'. split; [exact Hdelete|]. split; [exact Hget|].
  injection Hdelete as <-. vm_compute. reflexivity.
Defined.

End StoreLaws.

(* --------------------------------------------------------------------- *)
(** ** Laws of the entity layer *)
(* --------------------------------------------------------------------- *)

Section EntityLaws.
Import Platform Utils Keys Client Plugins Examples.

(** X6.  An entity whose key transformer cannot map an id to a key (tenant,
    hierarchy, or custom without fromId) cannot be read, updated or
    deleted by id: get, update and delete throw the transformer's error
    before any command is sent. *)
Theorem by_id_needs_fromId dodo config type toKey id updates s :
  Entity.keys config = tenant type
  ∨ Entity.keys config = hierarchy type
  ∨ Entity.keys config = custom toKey None →
  ∃ message,
    message ∈ ["Tenant transformer requires tenantId";
               "Hierarchy transformer requires parentId";
               "fromId not implemented"]
    ∧ Entity.get dodo config id s = (Throw (Error message), s)
    ∧ Entity.update dodo config id updates s = (Throw (Error message), s)
    ∧ Entity.deleteEntity config id s = (Throw (Error message), s).
Proof.
  intros [Hk|[Hk|Hk]]; eexists; (split; [|split; [|split]]);
    try (unfold Entity.update, Entity.get, Entity.deleteEntity; unfold_M;
         rewrite Hk; reflexivity).
  - left.
  - right; left.
  - right; right; left.
Qed.

Lemma by_id_needs_fromId_witness :
  ∃ message,
    message ∈ ["Tenant transformer requires tenantId";
               "Hierarchy transformer requires parentId";
               "fromId not implemented"]
    ∧ Entity.get dodo0
        {| Entity.name_ := "Post"; Entity.schema_parse := λ x, Return x;
           Entity.keys := tenant "POST"; Entity.plugins := None |}
        "1" (stored alice)
      = (Throw (Error message), stored alice)
    ∧ Entity.update dodo0
        {| Entity.name_ := "Post"; Entity.schema_parse := λ x, Return x;
           Entity.keys := tenant "POST"; Entity.plugins := None |}
        "1" (VObj ∅) (stored alice)
      = (Throw (Error message), stored alice)
    ∧ Entity.deleteEntity
        {| Entity.name_ := "Post"; Entity.schema_parse := λ x, Return x;
           Entity.keys := tenant "POST"; Entity.plugins := None |}
        "1" (stored alice)
      = (Throw (Error message), stored alice).
Proof.
  apply (by_id_needs_fromId dodo0 _ "POST" (λ _, key1) "1" (VObj ∅)
           (stored alice)).
  left. reflexivity.
Defined.

Lemma omap_storable_delete k (m : gmap string value) :
  omap storable (delete k m) = delete k (omap storable m).
Proof.
  apply map_eq. intros j. rewrite lookup_omap.
  destruct (decide (j = k)) as [->|Hne].
  - by rewrite !lookup_delete_eq.
  - by rewrite !lookup_delete_ne, lookup_omap by done.
Qed.

Lemma omap_storable_serializable (m : gmap string value) :
  serializable (VObj m) = true → omap storable m = m.
Proof.
  intros Hser%marshall_serializable. rewrite marshall_VObj in Hser.
  by injection Hser.
Qed.

(** X7.  For an entity keyed by [single], over a facade without plugins:
    when create returns a record with the string id [id], it has sent one
    put and no read (a record already stored under the id is replaced),
    the table holds the record with its key attributes at
    type#id / type#META, and get(id) finds it there: it validates the
    stored data, which is the record less its undefined members and less
    any pk or sk of its own, and passes it through the after-get hooks. *)
Theorem create_then_get dodo config type input s s' (m : gmap string value) id :
  Dodo.the_plugins dodo = [] →
  Entity.keys config = single type →
  Entity.create dodo config input s = (Return (VObj m), s') →
  m !! "id" = Some (VStr id) →
  let key := {| pk := type +:+ "#" +:+ id; sk := type +:+ "#META" |} in
  let record : gmap string value :=
    <["pk" := VStr (pk key)]> (<["sk" := VStr (sk key)]> m) in
  let data : gmap string value :=
    omap storable (delete "pk" (delete "sk" m)) in
  s' = {| table := <[(pk key, sk key) := omap storable record]> (table s);
          sent := sent s ++ [PutCommand (VObj record)] |}
  ∧ Entity.get dodo config id s'
    = (validated ← Entity.schema_parse config (VObj data);
       shown ← Entity.applyPlugins config Entity.AfterGet [validated];
       Return (if is_undef shown then VNull else shown),
       log (GetCommand key) s')
  ∧ (m !! "pk" = None → m !! "sk" = None → serializable (VObj m) = true →
     data = m).
Proof.
  intros Hplugins Hkeys Hcreate Hid key record data.
  assert (s' = {| table := <[(pk key, sk key) := omap storable record]> (table s);
                  sent := sent s ++ [PutCommand (VObj record)] |}) as Hs'.
  { revert Hcreate. unfold Entity.create. unfold_M.
    destruct (Entity.schema_parse config input) as [validated|e]; [|done].
    destruct (Entity.applyPlugins config Entity.BeforeCreate [validated])
      as [transformed|e]; [|done].
    rewrite Hkeys. cbn [toKey single]. unfold_M.
    destruct (get_prop transformed "id") as [i|e] eqn:Hi; [|done].
    unfold Dodo.put, send_put. unfold_M.
    rewrite (applyPlugins_no_plugins _ _ _ Hplugins). cbv beta iota.
    rewrite spread_with_key, marshall_VObj. cbv beta iota.
    rewrite primary_key_reasserted. cbn [pk sk].
    intros [= -> <-]. cbn [get_prop own_props] in Hi. rewrite Hid in Hi.
    injection Hi as <-. reflexivity. }
  split; [exact Hs'|]. split.
  - unfold Entity.get. unfold_M. rewrite Hkeys. cbn [fromId single].
    fold key.
    erewrite get_present;
      [|rewrite Hs'; cbn [table]; apply lookup_insert_eq].
    rewrite (applyPlugins_no_plugins _ _ _ Hplugins). cbv beta iota.
    cbn [truthy negb]. unfold Entity.strip_key. cbn [own_props].
    rewrite <-!omap_storable_delete. subst record.
    rewrite (delete_insert_ne _ "sk" "pk") by done.
    rewrite !delete_insert_eq.
    fold data.
    destruct (Entity.schema_parse config (VObj data)) as [validated|e];
      [|done].
    cbn. by destruct (Entity.applyPlugins config Entity.AfterGet [validated]).
  - intros Hpk Hsk Hser. subst data.
    rewrite (delete_id m "sk") by done. rewrite (delete_id m "pk") by done.
    by apply omap_storable_serializable.
Qed.

Lemma create_then_get_witness :
  let s' := {| table := {[ ("USER#1", "USER#META")
                             := own_props (Dodo.of_key key1) ∪ alice ]};
               sent := [PutCommand (VObj (own_props (Dodo.of_key key1) ∪ alice))] |} in
  Entity.create dodo0 Plain (VObj alice) {| table := ∅; sent := [] |}
    = (Return (VObj alice), s')
  ∧ Entity.get dodo0 Plain "1" s'
    = (Return (VObj alice), log (GetCommand key1) s').
Proof.
  intros s'.
  assert (Entity.create dodo0 Plain (VObj alice) {| table := ∅; sent := [] |}
          = (Return (VObj alice), s')) as Hcreate
    by (vm_compute; reflexivity).
  split; [exact Hcreate|].
  destruct (create_then_get dodo0 Plain "USER" (VObj alice)
              {| table := ∅; sent := [] |} s' alice "1"
              eq_refl eq_refl Hcreate eq_refl) as (_ & Hget & Hdata).
  rewrite Hget. rewrite Hdata by (vm_compute; reflexivity).
  reflexivity.
Defined.

(** X8.  For an entity keyed by [single], delete(id) sends one delete for
    type#id / type#META without looking the record up and without running
    a hook; it succeeds whether or not the record exists, and a get(id)
    that follows returns null whatever the plugins are. *)
Theorem deleteEntity_then_get dodo config type id s :
  Entity.keys config = single type →
  let key := {| pk := type +:+ "#" +:+ id; sk := type +:+ "#META" |} in
  ∃ s',
    Entity.deleteEntity config id s = (Return (), s')
    ∧ s' = {| table := delete (pk key, sk key) (table s);
              sent := sent s ++ [DeleteCommand key] |}
    ∧ Entity.get dodo config id s' = (Return VNull, log (GetCommand key) s').
Proof.
  intros Hkeys key. eexists. split; [|split; [reflexivity|]].
  - unfold Entity.deleteEntity. unfold_M. rewrite Hkeys. reflexivity.
  - apply entity_get_absent; [by rewrite Hkeys|]. cbn. apply lookup_delete_eq.
Qed.

Lemma deleteEntity_then_get_witness :
  ∃ s',
    Entity.deleteEntity (User "now") "1" (stored alice) = (Return (), s')
    ∧ s' = {| table := delete ("USER#1", "USER#META") (table (stored alice));
              sent := [DeleteCommand key1] |}
    ∧ Entity.get dodo0 (User "now") "1" s'
      = (Return VNull, log (GetCommand key1) s').
Proof.
  apply (deleteEntity_then_get dodo0 (User "now") "USER" "1" (stored alice)).
  reflexivity.
Defined.

End EntityLaws.

(* --------------------------------------------------------------------- *)
(** ** The hooks of timestamps and softDelete *)
(* --------------------------------------------------------------------- *)

Section Hooks.
Import Platform Utils Keys Client Plugins Examples.

Lemma spread_stamp (updates : value) k x :
  spread [updates; VObj {[ k := x ]}] = <[k := x]> (own_props updates).
Proof.
  rewrite spread_pair. cbn [own_props].
  by rewrite <-insert_union_singleton_l.
Qed.

(** X9.  In the before-update pipeline a hook's result is handed to the
    next hook in the place of the id, while every hook reads the caller's
    updates; the hooks of timestamps and softDelete read only the
    updates, so of the two only the later one's change reaches the
    record.  With timestamps first the result has updatedAt only if the
    caller supplied it; with softDelete first the result has deletedAt
    only if the caller supplied it, also when the update sets deleted to
    true. *)
Theorem before_update_keeps_last_hook config id (m : gmap string value)
    created updated touched now :
  (Entity.the_plugins config
     = [timestamps created updated touched; softDelete now] →
   ∃ r, Entity.applyPlugins config Entity.BeforeUpdate [VStr id; VObj m]
          = Return (VObj r)
        ∧ r !! "updatedAt" = m !! "updatedAt")
  ∧ (Entity.the_plugins config
       = [softDelete now; timestamps created updated touched] →
     ∃ r, Entity.applyPlugins config Entity.BeforeUpdate [VStr id; VObj m]
            = Return (VObj r)
          ∧ r !! "deletedAt" = m !! "deletedAt"
          ∧ r !! "updatedAt" = Some (VStr touched)).
Proof.
  split; intros Hps; unfold Entity.applyPlugins; rewrite Hps;
    cbn [Entity.handler timestamps softDelete Entity.beforeUpdate
         head tail default lookup list_lookup];
    unfold_M; unfold Datatypes.id; cbn [has_prop get_prop own_props].
  - destruct (m !! "deleted") as [d|] eqn:Hd.
    + rewrite bool_decide_true by (by eexists).
      cbn [default from_option]. unfold Datatypes.id.
      destruct (is_true d) eqn:Ht; cbn [coalesce nullish].
      * eexists. split; [reflexivity|]. rewrite spread_stamp.
        by rewrite lookup_insert_ne.
      * eexists. split; [reflexivity|]. done.
    + rewrite bool_decide_false by (by intros [? [=]]).
      cbn [coalesce nullish].
      eexists. split; [reflexivity|]. done.
  - rewrite !spread_stamp. cbn [coalesce nullish].
    destruct (m !! "deleted") as [d|] eqn:Hd.
    + rewrite bool_decide_true by (by eexists).
      cbn [default from_option]. unfold Datatypes.id.
      destruct (is_true d) eqn:Ht; cbn [coalesce nullish];
        (eexists; split; [reflexivity|]; split;
         [by rewrite lookup_insert_ne|by rewrite lookup_insert_eq]).
    + rewrite bool_decide_false by (by intros [? [=]]).
      cbn [coalesce nullish].
      eexists; split; [reflexivity|]; split;
        [by rewrite lookup_insert_ne|by rewrite lookup_insert_eq].
Qed.

Lemma before_update_keeps_last_hook_witness :
  let deleting : gmap string value := {[ "deleted" := VBool true ]} in
  (∃ r, Entity.applyPlugins
          {| Entity.name_ := "User"; Entity.schema_parse := λ x, Return x;
             Entity.keys := single "USER";
             Entity.plugins := Some [timestamps "t1" "t2" "t3"; softDelete "t4"] |}
          Entity.BeforeUpdate [VStr "1"; VObj deleting] = Return (VObj r)
        ∧ r !! "updatedAt" = None)
  ∧ (∃ r, Entity.applyPlugins
            {| Entity.name_ := "User"; Entity.schema_parse := λ x, Return x;
               Entity.keys := single "USER";
               Entity.plugins := Some [softDelete "t4"; timestamps "t1" "t2" "t3"] |}
            Entity.BeforeUpdate [VStr "1"; VObj deleting] = Return (VObj r)
          ∧ r !! "deletedAt" = None
          ∧ r !! "updatedAt" = Some (VStr "t3")).
Proof.
  intros deleting. split.
  - apply (proj1 (before_update_keeps_last_hook _ "1" deleting
                    "t1" "t2" "t3" "t4")). reflexivity.
  - apply (proj2 (before_update_keeps_last_hook _ "1" deleting
                    "t1" "t2" "t3" "t4")). reflexivity.
Defined.

Lemma spread_stamps (item : value) k1 x1 k2 x2 :
  spread [item; VObj {[ k1 := x1 ]}; VObj {[ k2 := x2 ]}]
  = <[k2 := x2]> (<[k1 := x1]> (own_props item)).
Proof.
  unfold spread. cbn [foldl own_props]. rewrite (right_id_L ∅ (∪)).
  by rewrite <-!insert_union_singleton_l.
Qed.

(** X10.  For an entity whose only plugin is timestamps.  create validates
    the input first and stamps it afterwards: the record it keys, stores
    and returns is the validated input with createdAt and updatedAt set
    to the clock's readings, whatever the input held there.  update
    merges the updates over the current record with updatedAt set to the
    clock's reading, whatever the updates held there, and validates and
    puts that; createdAt is the current record's unless the updates name
    it. *)
Theorem timestamps_stamp dodo config created updated touched :
  Entity.the_plugins config = [timestamps created updated touched] →
  (∀ input validated s,
     Entity.schema_parse config input = Return validated →
     let stamped : gmap string value :=
       <["updatedAt" := VStr updated]>
         (<["createdAt" := VStr created]> (own_props validated)) in
     Entity.create dodo config input s
     = (key ← lift (toKey (Entity.keys config) (VObj stamped));
        _ ← Dodo.put dodo (VObj (spread [VObj stamped; Dodo.of_key key]));
        ret (VObj stamped)) s)
  ∧ (∀ id updates s current s1,
       Entity.get dodo config id s = (Return current, s1) →
       truthy current = true →
       let merged : gmap string value :=
         <["updatedAt" := VStr touched]> (own_props updates)
         ∪ own_props current in
       Entity.update dodo config id updates s
       = (validated ← lift (Entity.schema_parse config (VObj merged));
          key ← lift (fromId (Entity.keys config) id);
          _ ← Dodo.put dodo (VObj (spread [validated; Dodo.of_key key]));
          ret validated) s1
       ∧ merged !! "updatedAt" = Some (VStr touched)
       ∧ (own_props updates !! "createdAt" = None →
          merged !! "createdAt" = own_props current !! "createdAt")).
Proof.
  intros Hps. split.
  - intros input validated s Hparse stamped.
    unfold Entity.create. unfold_M. rewrite Hparse.
    unfold Entity.applyPlugins. rewrite Hps.
    cbn [Entity.handler timestamps Entity.beforeCreate head tail default
         lookup list_lookup from_option].
    unfold_M. unfold Datatypes.id. rewrite spread_stamps.
    cbn [coalesce nullish]. reflexivity.
  - intros id updates s current s1 Hget Htruthy merged.
    split; [|split].
    + unfold Entity.update. unfold_M. rewrite Hget. cbv beta iota.
      rewrite Htruthy. cbn [negb].
      unfold Entity.applyPlugins. rewrite Hps.
      cbn [Entity.handler timestamps Entity.beforeUpdate head tail default
           lookup list_lookup from_option].
      unfold_M. unfold Datatypes.id. rewrite spread_stamp.
      cbn [coalesce nullish]. rewrite spread_pair. reflexivity.
    + subst merged. apply lookup_union_Some_l. by rewrite lookup_insert_eq.
    + intros Hnone. subst merged. rewrite lookup_union_r; [done|].
      by rewrite lookup_insert_ne.
Qed.

Lemma timestamps_stamp_witness :
  let config := {| Entity.name_ := "User"; Entity.schema_parse := λ x, Return x;
                   Entity.keys := single "USER";
                   Entity.plugins := Some [timestamps "t1" "t2" "t3"] |} in
  fst (Entity.create dodo0 config
         (VObj (<["createdAt" := VStr "1999"]> alice))
         {| table := ∅; sent := [] |})
  = Return (VObj (<["updatedAt" := VStr "t2"]>
                    (<["createdAt" := VStr "t1"]> alice))).
Proof.
  intros config.
  destruct (timestamps_stamp dodo0 config "t1" "t2" "t3" eq_refl)
    as [Hcreate _].
  rewrite (Hcreate (VObj (<["createdAt" := VStr "1999"]> alice))
             (VObj (<["createdAt" := VStr "1999"]> alice))
             {| table := ∅; sent := [] |} eq_refl).
  vm_compute. reflexivity.
Defined.

(** X11.  For an entity whose only plugin is softDelete.  An update whose
    updates set deleted to true is merged over the current record with
    deletedAt set to the clock's reading; any other update that is an
    object is merged as it is; the merge is then validated and put.  An
    update called with undefined for the updates throws a TypeError after
    the read, without writing. *)
Theorem soft_delete_by_update dodo config now id s current s1 :
  Entity.the_plugins config = [softDelete now] →
  Entity.get dodo config id s = (Return current, s1) →
  truthy current = true →
  (∀ u : gmap string value,
     let marked : gmap string value :=
       if is_true (default VUndef (u !! "deleted"))
       then <["deletedAt" := VStr now]> u else u in
     Entity.update dodo config id (VObj u) s
     = (validated ← lift (Entity.schema_parse config
                            (VObj (marked ∪ own_props current)));
        key ← lift (fromId (Entity.keys config) id);
        _ ← Dodo.put dodo (VObj (spread [validated; Dodo.of_key key]));
        ret validated) s1)
  ∧ ∃ message,
      Entity.update dodo config id VUndef s = (Throw (TypeError message), s1).
Proof.
  intros Hps Hget Htruthy. split.
  - intros u marked.
    unfold Entity.update. unfold_M. rewrite Hget. cbv beta iota.
    rewrite Htruthy. cbn [negb].
    unfold Entity.applyPlugins. rewrite Hps.
    cbn [Entity.handler softDelete Entity.beforeUpdate head tail default
         lookup list_lookup from_option].
    unfold_M. unfold Datatypes.id. cbn [has_prop get_prop own_props].
    subst marked. destruct (u !! "deleted") as [d|] eqn:Hd.
    + rewrite bool_decide_true by (by eexists).
      cbn [default from_option]. unfold Datatypes.id.
      destruct (is_true d) eqn:Ht.
      * rewrite spread_stamp. cbn [coalesce nullish own_props].
        by rewrite spread_pair.
      * cbn [coalesce nullish]. by rewrite spread_pair.
    + rewrite bool_decide_false by (by intros [? [=]]).
      cbn [default from_option is_true coalesce nullish].
      by rewrite spread_pair.
  - eexists. unfold Entity.update. unfold_M. rewrite Hget. cbv beta iota.
    rewrite Htruthy. cbn [negb].
    unfold Entity.applyPlugins. rewrite Hps.
    cbn [Entity.handler softDelete Entity.beforeUpdate head tail default
         lookup list_lookup from_option].
    unfold_M. unfold Datatypes.id. cbn [has_prop]. reflexivity.
Qed.

Lemma soft_delete_by_update_witness :
  fst (Entity.update dodo0 (User "now") "1"
         (VObj {[ "deleted" := VBool true ]}) (stored alice))
  = Return (VObj (<["deleted" := VBool true]>
                    (<["deletedAt" := VStr "now"]> alice))).
Proof.
  destruct (soft_delete_by_update dodo0 (User "now") "now" "1" (stored alice)
              (VObj alice) (log (GetCommand key1) (stored alice)))
    as [Hupdate _]; [reflexivity|vm_compute; reflexivity|reflexivity|].
  rewrite Hupdate. vm_compute. reflexivity.
Defined.

End Hooks.

(* --------------------------------------------------------------------- *)
(** ** The encryption plugin and undefined fields *)
(* --------------------------------------------------------------------- *)

Section EncryptionEdge.
Import Platform Utils Keys Client Plugins Examples.






End EncryptionEdge.

(* --------------------------------------------------------------------- *)
(** ** buildQueryExpression *)
(* --------------------------------------------------------------------- *)

Section QueryExpressions.
Import Platform Utils.

Lemma placeholders_keys {A} p (l : list A) k x :
  placeholders p l !! k = Some x → ∃ i : nat, k = p +:+ pretty i.
Proof.
  induction l as [|y l IH]; [done|]. cbn.
  destruct (decide (k = p +:+ pretty (length l))) as [->|Hne].
  - intros _. by eexists.
  - rewrite lookup_insert_ne by done. apply IH.
Qed.

(** The value placeholders of a compiled filter are named :v<i>. *)
Lemma compiled_value_keys f compiled k x :
  buildFilterExpression f = Return compiled →
  Compiled.values compiled !! k = Some x → ∃ i : nat, k = ":v" +:+ pretty i.
Proof.
  unfold buildFilterExpression.
  destruct (buildExpr f _) as [[e|?] c'] eqn:Hrun; [|done]. intros [= <-].
  destruct (buildExpr_tracked f _ e c' [] [] Hrun) as (_ & _ & Hv & _);
    [done|].
  cbn. rewrite Hv. apply placeholders_keys.
Qed.

(** The bindings of the key condition are named :pk, :sk, :sk_start and
    :sk_end, and :pk is always bound to [params.pk]. *)
Lemma keyCondition_bindings params :
  (keyCondition params).2 !! ":pk" = Some (QueryParams.pk params)
  ∧ ∀ k x, (keyCondition params).2 !! k = Some x →
           k ∈ [":pk"; ":sk"; ":sk_start"; ":sk_end"].
Proof.
  unfold keyCondition.
  assert (∀ k x (v : value),
            ({[ ":pk" := v ]} : gmap string value) !! k = Some x →
            k ∈ [":pk"; ":sk"; ":sk_start"; ":sk_end"]) as Hpk.
  { intros k x v [-> _]%lookup_singleton_Some. left. }
  assert (∀ k x (v w : value),
            (<[":sk" := w]> {[ ":pk" := v ]} : gmap string value) !! k = Some x →
            k ∈ [":pk"; ":sk"; ":sk_start"; ":sk_end"]) as Hsk.
  { intros k x v w [[-> _]|[_ Hk]]%lookup_insert_Some; [right; left|].
    by eapply Hpk. }
  destruct (QueryParams.sk params) as [sk|]; [|split; [done|by eauto]].
  destruct (SKCondition.eq_ sk); [split; [done|by eauto]|].
  destruct (SKCondition.beginsWith sk); [split; [done|by eauto]|].
  destruct (SKCondition.between sk) as [range|].
  { split; [done|]. cbn [snd]. intros k x [[<- _]|[_ Hk]]%lookup_insert_Some.
    - right; right; right; left.
    - apply lookup_insert_Some in Hk as [[<- _]|[_ Hk]].
      + right; right; left.
      + by eapply Hpk. }
  destruct (SKCondition.gt sk); [split; [done|by eauto]|].
  destruct (SKCondition.gte sk); [split; [done|by eauto]|].
  destruct (SKCondition.lt sk); [split; [done|by eauto]|].
  destruct (SKCondition.lte sk); split; try done; by eauto.
Qed.

Lemma placeholder_not_key_binding (i : nat) :
  ":v" +:+ pretty i ∉ [":pk"; ":sk"; ":sk_start"; ":sk_end"].
Proof.
  rewrite !string_app_cons, string_app_nil_l.
  intros Hin. repeat (apply elem_of_cons in Hin as [Hin|Hin]; [done|]).
  by apply elem_of_nil in Hin.
Qed.

Lemma unless_empty_Some {A} (m : gmap string A) k x :
  m !! k = Some x → unless_empty m = Some m.
Proof.
  intros Hk. unfold unless_empty. rewrite bool_decide_false; [done|].
  intros Hsize%map_size_empty_iff. by rewrite Hsize in Hk.
Qed.

(** X13.  buildQueryExpression fails only through the filter: with a filter
    that contains a node of no recognized shape it throws the compiler's
    error, and in every other case it returns, whatever the sort key
    condition holds.  A sort key condition carrying none of eq,
    beginsWith, between, gt, gte, lt, lte is not an error: the key
    condition is then [pk = :pk] alone. *)
Theorem query_expression_fails_through_filter_only params :
  (∀ f, QueryParams.filter params = Some f → contains_unrecognized f →
        ∃ e, buildQueryExpression params = Throw e ∧ InvalidExpression e)
  ∧ (QueryParams.filter params = None
     ∨ (∃ f, QueryParams.filter params = Some f ∧ ¬ contains_unrecognized f) →
     ∃ r, buildQueryExpression params = Return r)
  ∧ (QueryParams.sk params
       = Some {| SKCondition.eq_ := None; SKCondition.beginsWith := None;
                 SKCondition.between := None; SKCondition.gt := None;
                 SKCondition.gte := None; SKCondition.lt := None;
                 SKCondition.lte := None |} →
     keyCondition params = ("pk = :pk", {[ ":pk" := QueryParams.pk params ]})).
Proof.
  split; [|split].
  - intros f Hf Hbad. unfold buildQueryExpression.
    destruct (keyCondition params) as [kce eav]. rewrite Hf.
    unfold buildFilterExpression.
    destruct (buildExpr_decided f
                {| values := ∅; names := ∅; valueCounter := 0;
                   nameCounter := 0 |})
      as [(_ & e & c' & -> & He)|(Hok & _)]; [|done]. by exists e.
  - intros [Hnone|(f & Hf & Hok)]; unfold buildQueryExpression;
      destruct (keyCondition params) as [kce eav].
    + rewrite Hnone. by eexists.
    + rewrite Hf. unfold buildFilterExpression.
      destruct (buildExpr_decided f
                  {| values := ∅; names := ∅; valueCounter := 0;
                     nameCounter := 0 |})
        as [(Hbad & _)|(_ & e & c' & ->)]; [done|]. by eexists.
  - intros Hsk. unfold keyCondition. by rewrite Hsk.
Qed.

Lemma query_expression_fails_through_filter_only_witness :
  let params f := {|
    QueryParams.pk := VStr "USER#1";
    QueryParams.sk := Some {| SKCondition.eq_ := None;
                              SKCondition.beginsWith := Some (VStr "ORDER#");
                              SKCondition.between := None;
                              SKCondition.gt := None; SKCondition.gte := None;
                              SKCondition.lt := None; SKCondition.lte := None |};
    QueryParams.limit := VUndef; QueryParams.cursor := VUndef;
    QueryParams.ascending := VUndef; QueryParams.index := VUndef;
    QueryParams.filter := Some f;
    QueryParams.projection := None |} in
  (∃ e, buildQueryExpression (params (Not no_keys)) = Throw e
        ∧ InvalidExpression e)
  ∧ ∃ r, buildQueryExpression (params (Exists "email" true)) = Return r.
Proof.
  intros params. split.
  - apply (proj1 (query_expression_fails_through_filter_only
                    (params (Not no_keys))) (Not no_keys) eq_refl).
    eapply unrecognized_below; [cbn; left|]. by apply unrecognized_here.
  - apply (proj1 (proj2 (query_expression_fails_through_filter_only
                           (params (Exists "email" true))))).
    right. exists (Exists "email" true). split; [reflexivity|].
    intros [Hu|(g & Hin & _)]%contains_unrecognized_inv; [done|].
    by apply elem_of_nil in Hin.
Defined.

(** X14.  A filter never disturbs the key condition.  When the filter
    compiles, the expression built with it has the key condition of the
    expression built without it; its value bindings are those of the key
    condition (:pk bound to params.pk among them) together with the
    filter's, none overwritten and nothing else; its filter expression
    and its name bindings are the compiled filter's. *)
Theorem filter_keeps_key_condition params f compiled :
  QueryParams.filter params = Some f →
  buildFilterExpression f = Return compiled →
  ∃ r r0 vals vals0,
    buildQueryExpression params = Return r
    ∧ buildQueryExpression (unfiltered params) = Return r0
    ∧ QueryExpression.KeyConditionExpression r
      = QueryExpression.KeyConditionExpression r0
    ∧ QueryExpression.ExpressionAttributeValues r = Some vals
    ∧ QueryExpression.ExpressionAttributeValues r0 = Some vals0
    ∧ vals0 !! ":pk" = Some (QueryParams.pk params)
    ∧ (∀ k x, vals0 !! k = Some x → vals !! k = Some x)
    ∧ (∀ k x, Compiled.values compiled !! k = Some x → vals !! k = Some x)
    ∧ size vals = (size vals0 + size (Compiled.values compiled))%nat
    ∧ QueryExpression.FilterExpression r = Some (Compiled.expr compiled)
    ∧ QueryExpression.ExpressionAttributeNames r
      = unless_empty (Compiled.names compiled).
Proof.
  intros Hf Hcompiled.
  destruct (keyCondition_bindings params) as [Hpk Hkeys].
  assert (keyCondition (unfiltered params) = keyCondition params) as Hsame
    by reflexivity.
  unfold buildQueryExpression. rewrite Hsame.
  destruct (keyCondition params) as [kce eav] eqn:Hkc. cbn [snd] in Hpk, Hkeys.
  rewrite Hf, Hcompiled. cbn [unfiltered QueryParams.filter].
  unfold_M.
  assert (Compiled.values compiled ##ₘ eav) as Hdisj.
  { apply map_disjoint_spec. intros k x y Hx Hy.
    destruct (compiled_value_keys f compiled k x Hcompiled Hx) as [i ->].
    apply Hkeys in Hy. by apply placeholder_not_key_binding in Hy. }
  eexists _, _, (Compiled.values compiled ∪ eav), eav.
  split; [reflexivity|]. split; [reflexivity|]. split; [reflexivity|].
  cbn [QueryExpression.ExpressionAttributeValues
       QueryExpression.FilterExpression
       QueryExpression.ExpressionAttributeNames].
  split; [|split; [|split; [|split; [|split; [|split; [|split]]]]]].
  - apply (unless_empty_Some _ ":pk" (QueryParams.pk params)).
    rewrite lookup_union_r; [done|].
    destruct (Compiled.values compiled !! ":pk") as [x|] eqn:Hx; [|done].
    exfalso. by apply (map_disjoint_spec _ _ ) with (i := ":pk") (x := x)
                     (y := QueryParams.pk params) in Hdisj.
  - by apply (unless_empty_Some _ ":pk" (QueryParams.pk params)).
  - done.
  - intros k x Hk. rewrite lookup_union_r; [done|].
    destruct (Compiled.values compiled !! k) as [y|] eqn:Hy; [|done].
    exfalso. by apply (map_disjoint_spec _ _ ) with (i := k) (x := y) (y := x)
                     in Hdisj.
  - intros k x Hk. by apply lookup_union_Some_l.
  - rewrite map_size_disj_union by done. lia.
  - done.
  - by rewrite (right_id_L ∅ (∪)).
Qed.

Lemma filter_keeps_key_condition_witness :
  let params := {|
    QueryParams.pk := VStr "USER#1";
    QueryParams.sk := Some {| SKCondition.eq_ := None;
                              SKCondition.beginsWith := None;
                              SKCondition.between :=
                                Some [VStr "2024"; VStr "2025"];
                              SKCondition.gt := None; SKCondition.gte := None;
                              SKCondition.lt := None; SKCondition.lte := None |};
    QueryParams.limit := VUndef; QueryParams.cursor := VUndef;
    QueryParams.ascending := VUndef; QueryParams.index := VUndef;
    QueryParams.filter := Some role_and_status;
    QueryParams.projection := Some ["id"; "email"] |} in
  ∃ r vals,
    buildQueryExpression params = Return r
    ∧ QueryExpression.KeyConditionExpression r
      = "pk = :pk AND sk BETWEEN :sk_start AND :sk_end"
    ∧ QueryExpression.ExpressionAttributeValues r = Some vals
    ∧ vals !! ":pk" = Some (VStr "USER#1")
    ∧ vals !! ":sk_end" = Some (VStr "2025")
    ∧ vals !! ":v1" = Some (VStr "inactive")
    ∧ size vals = 5%nat.
Proof.
  intros params.
  destruct (buildFilterExpression role_and_status) as [compiled|e] eqn:Hc;
    [|vm_compute in Hc; discriminate Hc].
  destruct (filter_keeps_key_condition params role_and_status compiled
              eq_refl Hc)
    as (r & r0 & vals & vals0 & Hr & Hr0 & Hkce & Hvals & Hvals0 & Hpk
        & Hkey & Hfilter & Hsize & _).
  vm_compute in Hc. injection Hc as <-.
  vm_compute in Hr0. injection Hr0 as <-.
  cbn [QueryExpression.ExpressionAttributeValues] in Hvals0.
  injection Hvals0 as <-.
  exists r, vals. split; [exact Hr|]. split; [by rewrite Hkce|].
  split; [exact Hvals|]. split; [by apply Hkey|]. split; [by apply Hkey|].
  split; [by apply Hfilter|]. rewrite Hsize. reflexivity.
Defined.

End QueryExpressions.

(* --------------------------------------------------------------------- *)
(** ** scan, find and the pagination cursor *)
(* --------------------------------------------------------------------- *)

Section Scans.
Import Platform Utils Keys Client Plugins Examples.

Lemma applyPlugins_no_handler config phase data :
  (∀ plugin, plugin ∈ Dodo.the_plugins config →
             Dodo.handler plugin phase = None) →
  Dodo.applyPlugins config phase data = Return data.
Proof.
  unfold Dodo.applyPlugins.
  induction (Dodo.the_plugins config) as [|p ps IH]; intros Hnone; [done|].
  rewrite (Hnone p) by left. apply IH. intros q Hq. apply Hnone. by right.
Qed.

(** X15.  scan called without parameters throws a TypeError before any
    command is sent, unless a plugin's onBeforeQuery supplies the
    parameters: the facade reads [index] off the undefined value that
    comes out of the before-query pipeline.  find and findOne call scan
    this way, so on a facade without onBeforeQuery hooks they throw this
    TypeError for every predicate. *)
Theorem scan_without_parameters_throws dodo send_scan s :
  (∀ plugin, plugin ∈ Dodo.the_plugins dodo →
             Dodo.onBeforeQuery plugin = None) →
  Dodo.scan dodo send_scan VUndef s
  = (Throw (TypeError "Cannot read properties of undefined"), s)
  ∧ ∀ config predicate,
      Entity.find dodo config send_scan predicate s
      = (Throw (TypeError "Cannot read properties of undefined"), s)
      ∧ Entity.findOne dodo config send_scan predicate s
        = (Throw (TypeError "Cannot read properties of undefined"), s).
Proof.
  intros Hnone.
  assert (Dodo.scan dodo send_scan VUndef s
          = (Throw (TypeError "Cannot read properties of undefined"), s))
    as Hscan.
  { unfold Dodo.scan. unfold_M.
    by rewrite (applyPlugins_no_handler dodo Dodo.OnBeforeQuery VUndef Hnone). }
  split; [exact Hscan|]. intros config predicate.
  assert (Entity.find dodo config send_scan predicate s
          = (Throw (TypeError "Cannot read properties of undefined"), s))
    as Hfind.
  { unfold Entity.find. unfold_M. by rewrite Hscan. }
  split; [exact Hfind|].
  unfold Entity.findOne. unfold_M. by rewrite Hfind.
Qed.

Lemma scan_without_parameters_throws_witness :
  let send_scan : ScanCommandInput → M Store ScanCommandOutput :=
    λ _ s, (Return {| Items := Some [VObj alice]; Count := Some 1%Z;
                      ScannedCount := Some 1%Z; LastEvaluatedKey := None |},
            s) in
  Entity.find dodo_encrypting (User "now") send_scan
    (VObj {[ "name" := VStr "Alice" ]}) (stored alice)
  = (Throw (TypeError "Cannot read properties of undefined"), stored alice).
Proof.
  intros send_scan.
  apply (proj2 (scan_without_parameters_throws dodo_encrypting send_scan
                  (stored alice)
                  ltac:(intros plugin ->%list_elem_of_singleton; reflexivity))).
Defined.

Lemma base64_encode_nonempty a rest : base64_encode (String a rest) ≠ "".
Proof. by destruct rest as [|b [|c rest]]. Qed.

(** X16.  The cursor handed out with a page leads back to where the page
    ended.  For a last evaluated key without undefined inside: the cursor
    scan returns for it is a non-empty string, the result says hasMore,
    decoding the cursor gives the key back, and a scan whose parameters
    carry the cursor sends that key as ExclusiveStartKey. *)
Theorem cursor_round_trip config (key : gmap string value) :
  serializable (VObj key) = true →
  ∃ c,
    Dodo.make_cursor (Some key) = Return (VStr c)
    ∧ c ≠ ""
    ∧ Dodo.parse_cursor (VStr c) = Return (VObj key)
    ∧ (∀ response items,
         LastEvaluatedKey response = Some key →
         Dodo.applyPlugins_all config Dodo.OnAfterGet
           (default [] (Items response)) = Return items →
         ∃ result,
           Dodo.scanned config response = Return (VObj result)
           ∧ result !! "items" = Some (VArr items)
           ∧ result !! "hasMore" = Some (VBool true)
           ∧ result !! "cursor" = Some (VStr c))
    ∧ (∀ transformed : gmap string value,
         transformed !! "cursor" = Some (VStr c) →
         Dodo.ScanCommand config (VObj transformed)
         = Return {| TableName := Dodo.table config;
                     IndexName := default VUndef (transformed !! "index");
                     Limit := default VUndef (transformed !! "limit");
                     ExclusiveStartKey := VObj key |}).
Proof.
  intros Hser.
  destruct (serializable_round_trips _ Hser) as (Hprint & _ & a & t & Ht & _).
  destruct (JSON_parse_stringify _ Hser) as (text & Htext & Hparse).
  rewrite Hprint in Htext. injection Htext as <-.
  assert (Dodo.make_cursor (Some key)
          = Return (VStr (base64_encode (printed (VObj key))))) as Hmake.
  { unfold Dodo.make_cursor. by rewrite Hprint. }
  assert (base64_encode (printed (VObj key)) ≠ "") as Hne.
  { rewrite Ht. apply base64_encode_nonempty. }
  assert (Dodo.parse_cursor (VStr (base64_encode (printed (VObj key))))
          = Return (VObj key)) as Hback.
  { unfold Dodo.parse_cursor. cbn [truthy].
    destruct (String.eqb_spec (base64_encode (printed (VObj key))) "");
      [done|].
    cbn [negb]. by rewrite base64_decode_encode, Hparse. }
  exists (base64_encode (printed (VObj key))).
  split; [exact Hmake|]. split; [exact Hne|]. split; [exact Hback|]. split.
  - intros response items Hkey Hitems. eexists. split; [|split; [|split]].
    + unfold Dodo.scanned. unfold_M. rewrite Hitems, Hkey, Hmake. reflexivity.
    + by rewrite lookup_insert_eq.
    + rewrite !lookup_insert_ne by done. rewrite lookup_insert_eq.
      by rewrite bool_decide_true by (by eexists).
    + rewrite !lookup_insert_ne by done. by rewrite lookup_singleton_eq.
  - intros transformed Hcursor. unfold Dodo.ScanCommand. unfold_M.
    cbn [get_prop own_props]. rewrite Hcursor. cbn [default from_option].
    unfold Datatypes.id. by rewrite Hback.
Qed.

Lemma cursor_round_trip_witness :
  ∃ c,
    Dodo.make_cursor (Some (own_props (Dodo.of_key key1))) = Return (VStr c)
    ∧ Dodo.parse_cursor (VStr c) = Return (Dodo.of_key key1).
Proof.
  destruct (cursor_round_trip dodo0 (own_props (Dodo.of_key key1)))
    as (c & Hmake & _ & Hback & _); [vm_compute; reflexivity|].
  exists c. split; [exact Hmake|exact Hback].
Defined.

(** Where no pipeline throws, the results of the items' pipelines are
    those of the pipelines taken one by one. *)
Lemma applyPlugins_all_each config phase items results :
  mapC (Dodo.applyPlugins config phase) items = Return results →
  Dodo.applyPlugins_all config phase items = Return results.
Proof.
  unfold Dodo.applyPlugins_all, Dodo.applyPlugins.
  revert items results.
  induction (Dodo.the_plugins config) as [|p ps IH]; intros items results.
  - intros Hmap. f_equal. revert results Hmap.
    induction items as [|x items IHi]; intros results; cbn.
    + by intros [= <-].
    + destruct (mapC _ items) as [ys|e]; [|done]. cbn. intros [= <-].
      f_equal. by apply IHi.
  - destruct (Dodo.handler p phase) as [fn|] eqn:Hfn; [|apply IH].
    intros Hmap.
    assert (∃ mid, mapC fn items = Return mid
                   ∧ mapC (λ data,
                             (fix loop (ps : list Dodo.DodoPlugin) (result : value)
                                : completion value :=
                                match ps with
                                | [] => Return result
                                | plugin :: ps' =>
                                    match Dodo.handler plugin phase with
                                    | Some fn => result' ← fn result; loop ps' result'
                                    | None => loop ps' result
                                    end
                                end) ps data) mid = Return results)
      as (mid & Hmid & Hrest).
    { revert results Hmap. induction items as [|x items IHi]; intros results.
      - cbn. intros [= <-]. by exists [].
      - cbn. unfold_M. destruct (fn x) as [y|e]; [|done].
        match goal with
        | |- context [mapC ?f items] => destruct (mapC f items) as [zs|e] eqn:Hzs
        end.
        + destruct (IHi zs eq_refl) as (mid & -> & Hmid).
          match goal with
          | |- context [match ?c with Return _ => _ | Throw _ => _ end] =>
              destruct c as [z|e] eqn:Hz
          end; [|done].
          intros [= <-]. exists (y :: mid). split; [done|].
          cbn. unfold_M. by rewrite Hz, Hmid.
        + by destruct (_ ps y). }
    unfold_M. rewrite Hmid. by apply IH.
Qed.

End Scans.

(* --------------------------------------------------------------------- *)
(** ** The keys of an entity type *)
(* --------------------------------------------------------------------- *)

Section KeyInjectivity.
Import Platform Utils Keys Client Plugins Examples.

Lemma append_inj_l (s t p : string) :
  String.length s = String.length t → s +:+ p = t +:+ p → s = t.
Proof.
  revert t. induction s as [|a s IH]; intros [|b t]; cbn; try done.
  rewrite !string_app_cons. intros [= Hlen] [= -> Heq]. f_equal. by apply IH.
Qed.

Lemma append_inj_suffix (s t p : string) : s +:+ p = t +:+ p → s = t.
Proof.
  intros Heq. apply (append_inj_l s t p); [|done].
  apply (f_equal String.length) in Heq. rewrite !string_length_app in Heq. lia.
Qed.

(** X17.  Within one entity type the key transformers never map two
    different records to the same key: for records holding the fields as
    strings, equal keys from toKey mean equal id (single), equal tenantId
    and id (tenant), equal parentId and id (hierarchy).  For single, the
    key fromId returns for an id is the key toKey returns for a record
    with that id, and equal keys from fromId mean the same id and the same
    type. *)
Theorem keys_are_injective type (r1 r2 : gmap string value) id1 id2 :
  r1 !! "id" = Some (VStr id1) →
  r2 !! "id" = Some (VStr id2) →
  (toKey (single type) (VObj r1) = fromId (single type) id1
   ∧ (toKey (single type) (VObj r1) = toKey (single type) (VObj r2) →
      id1 = id2)
   ∧ (∀ type', fromId (single type) id1 = fromId (single type') id2 →
               type = type' ∧ id1 = id2))
  ∧ (∀ t1 t2, r1 !! "tenantId" = Some (VStr t1) →
              r2 !! "tenantId" = Some (VStr t2) →
              toKey (tenant type) (VObj r1) = toKey (tenant type) (VObj r2) →
              t1 = t2 ∧ id1 = id2)
  ∧ (∀ p1 p2, r1 !! "parentId" = Some (VStr p1) →
              r2 !! "parentId" = Some (VStr p2) →
              toKey (hierarchy type) (VObj r1)
                = toKey (hierarchy type) (VObj r2) →
              p1 = p2 ∧ id1 = id2).
Proof.
  intros H1 H2. split; [split; [|split]|split].
  - cbn. unfold_M. cbn. by rewrite H1.
  - cbn. unfold_M. cbn. rewrite H1, H2. cbn. intros [= Hpk].
    by apply append_inj_r, append_inj_r in Hpk.
  - intros type'. cbn. intros [= Hpk Hsk].
    apply append_inj_suffix in Hsk as <-. split; [done|].
    by apply append_inj_r, append_inj_r in Hpk.
  - intros t1 t2 Ht1 Ht2. cbn. unfold_M. cbn. rewrite H1, H2, Ht1, Ht2. cbn.
    intros [= Hpk Hsk]. split.
    + by apply append_inj_r in Hpk.
    + by apply append_inj_r, append_inj_r in Hsk.
  - intros p1 p2 Hp1 Hp2. cbn. unfold_M. cbn. rewrite H1, H2, Hp1, Hp2. cbn.
    intros [= Hpk Hsk]. split.
    + by apply append_inj_r, append_inj_r in Hpk.
    + by apply append_inj_r, append_inj_r in Hsk.
Qed.

Lemma keys_are_injective_witness :
  toKey (single "USER") (VObj alice) = fromId (single "USER") "1"
  ∧ (fromId (single "USER") "1" = fromId (single "USER") "1" →
     "USER" = "USER" ∧ "1" = "1").
Proof.
  destruct (keys_are_injective "USER" alice alice "1" "1" eq_refl eq_refl)
    as [(Hsame & _ & Hfrom) _].
  split; [exact Hsame|apply Hfrom].
Defined.

End KeyInjectivity.

(* --------------------------------------------------------------------- *)
(** ** What the encryption plugin stores *)
(* --------------------------------------------------------------------- *)

Section AtRest.
Import Platform Utils Keys Client Plugins Examples.

Lemma put_stores config item s s' :
  Dodo.put config item s = (Return (), s') →
  ∃ transformed attrs k,
    Dodo.applyPlugins config Dodo.OnBeforePut item = Return transformed
    ∧ marshall transformed = VObj attrs
    ∧ primary_key attrs = Some k
    ∧ s' = {| table := <[k := attrs]> (table s);
              sent := sent s ++ [PutCommand transformed] |}.
Proof.
  unfold Dodo.put, send_put. unfold_M.
  destruct (Dodo.applyPlugins config Dodo.OnBeforePut item)
    as [transformed|e]; [|done].
  destruct (marshall transformed) as [| | | | | |attrs] eqn:Hm; try done.
  destruct (primary_key attrs) as [k|] eqn:Hk; [|done].
  intros [= <-]. by exists transformed, attrs, k.
Qed.

Lemma storable_iter_cipher n x :
  serializable x = true →
  storable (Nat.iter n cipher x) = Some (Nat.iter n cipher x).
Proof.
  intros Hser. unfold storable.
  pose proof (iter_cipher_serializable n x Hser) as Hn.
  rewrite marshall_serializable by done.
  by destruct (Nat.iter n cipher x).
Qed.

(** X18.  What the encryption plugin leaves in the table.  After a put
    through a facade whose only plugin is encryption(fields), of an item
    whose listed fields hold values without undefined inside, the stored
    record holds, for every listed field of the item, the base64 text of
    the JSON text of its value, encoded once per time the field is
    listed, and holds every other member of the item as the client
    writes it. *)
Theorem encryption_at_rest config fields item s s' :
  Dodo.the_plugins config = [encryption fields] →
  listed_serializable fields (own_props item) →
  Dodo.put config item s = (Return (), s') →
  ∃ k attrs,
    table s' = <[k := attrs]> (table s)
    ∧ (∀ f x, f ∈ fields → own_props item !! f = Some x →
              attrs !! f = Some (Nat.iter (occurrences f fields) cipher x))
    ∧ (∀ f x, f ∈ fields → occurrences f fields = 1%nat →
              own_props item !! f = Some x →
              attrs !! f = Some (VStr (base64_encode (printed x))))
    ∧ (∀ f, f ∉ fields → attrs !! f = own_props item !! f ≫= storable).
Proof.
  intros Hps Hser Hput.
  destruct (put_stores _ _ _ _ Hput)
    as (transformed & attrs & k & Hbefore & Hm & Hk & ->).
  rewrite (applyPlugins_single config Dodo.OnBeforePut (encryption fields)
             _ item Hps eq_refl) in Hbefore.
  cbv beta in Hbefore. rewrite spread_one in Hbefore.
  destruct (encrypt_fields_lookup fields (own_props item) Hser)
    as (stored & Hrun & Hstored).
  rewrite Hrun in Hbefore. injection Hbefore as <-.
  rewrite marshall_VObj in Hm. injection Hm as <-.
  assert (∀ f x, f ∈ fields → own_props item !! f = Some x →
                 omap storable stored !! f
                 = Some (Nat.iter (occurrences f fields) cipher x)) as Hlisted.
  { intros f x Hf Hx. rewrite lookup_omap, Hstored, Hx. cbn.
    apply storable_iter_cipher. by eapply Hser. }
  exists k, (omap storable stored). split; [done|]. split; [exact Hlisted|].
  split.
  - intros f x Hf Hone Hx. rewrite (Hlisted f x Hf Hx), Hone. reflexivity.
  - intros f Hf. rewrite lookup_omap, Hstored, occurrences_listed by done.
    by destruct (own_props item !! f).
Qed.

Lemma encryption_at_rest_witness :
  ∃ s' k attrs,
    Dodo.put dodo_encrypting alice_with_ssn {| table := ∅; sent := [] |}
      = (Return (), s')
    ∧ table s' = {[ k := attrs ]}
    ∧ attrs !! "ssn" = Some (VStr "IjEyMy00NS02Nzg5Ig==")
    ∧ attrs !! "name" = Some (VStr "Alice").
Proof.
  destruct (Dodo.put dodo_encrypting alice_with_ssn {| table := ∅; sent := [] |})
    as [[[]|e] s'] eqn:Hput; [|vm_compute in Hput; discriminate Hput].
  destruct (encryption_at_rest dodo_encrypting ["ssn"] alice_with_ssn
              {| table := ∅; sent := [] |} s' eq_refl)
    as (k & attrs & Htable & _ & Hone & Hother); [|exact Hput|].
  { intros f x ->%list_elem_of_singleton Hx.
    vm_compute in Hx. by injection Hx as <-. }
  exists s', k, attrs. split; [reflexivity|]. split; [exact Htable|]. split.
  - rewrite (Hone "ssn" (VStr "123-45-6789")); [|left|reflexivity|reflexivity].
    vm_compute. reflexivity.
  - rewrite (Hother "name")
      by (intros Hin%list_elem_of_singleton; discriminate Hin).
    reflexivity.
Defined.

End AtRest.
